(** * Chunk validity and metadata extraction heuristics

    A shallow embedding of [validate_enhanced_filtering.py]: the chunk
    validator [test_is_valid_product_chunk], the name extractor
    [test_extract_product_name] and the metadata extractor
    [test_extract_product_metadata], together with the part of the Python
    runtime they call ([str] methods and the backtracking matcher of [re]). *)

From Stdlib Require Import String Ascii.
From Stdlib Require Import NArith Arith List Bool Lia.
Import ListNotations.

Set Implicit Arguments.

(** ** Python strings

    A Python [str] is a sequence of Unicode code points; [len] counts code
    points, not bytes. *)

Definition codepoint := N.
Definition str := list codepoint.

Definition str_eq_dec : forall a b : str, {a = b} + {a <> b} :=
  list_eq_dec N.eq_dec.

Definition str_eqb (a b : str) : bool :=
  if str_eq_dec a b then true else false.

(** Literals of the source are written as UTF-8 text and decoded to code
    points. [need] counts the continuation bytes still expected and [acc]
    holds the bits read so far. *)
Fixpoint utf8_decode (s : string) (acc : N) (need : nat) : str :=
  match s with
  | EmptyString => []
  | String a s' =>
      let b := N_of_ascii a in
      match need with
      | 0 =>
          if (b <? 0x80)%N then b :: utf8_decode s' 0%N 0
          else if (b <? 0xE0)%N then utf8_decode s' (b - 0xC0)%N 1
          else if (b <? 0xF0)%N then utf8_decode s' (b - 0xE0)%N 2
          else utf8_decode s' (b - 0xF0)%N 3
      | 1 => (acc * 64 + (b - 0x80))%N :: utf8_decode s' 0%N 0
      | S n => utf8_decode s' (acc * 64 + (b - 0x80))%N n
      end
  end.

Definition u (s : string) : str := utf8_decode s 0%N 0.

Definition NL : codepoint := 10%N.
Definition DQUOTE : codepoint := 34%N.

(** ** The Unicode character database

    The [str] methods and the [re] classes [\s], [\d], [\w] consult the
    Unicode tables of the interpreter.  The blocks that occur in the
    repository's literals and sample chunks are tabulated here: Basic Latin
    and Latin-1 Supplement (U+0000..U+00FF) and Mathematical Operators
    (U+2200..U+22FF, all of category Sm).  Every other code point is looked
    up in an abstract table [ucd], over which all results are quantified. *)

Record ucd := {
  (** full lowercase expansion of a code point, given the reversed text
      before it and the text after it (the final-sigma rule needs both) *)
  ucd_lower : str -> codepoint -> str -> str;
  ucd_isupper : codepoint -> bool;
  ucd_islower : codepoint -> bool;
  ucd_istitle : codepoint -> bool;
  ucd_isspace : codepoint -> bool;
  ucd_isdecimal : codepoint -> bool;
  ucd_isalnum : codepoint -> bool
}.

(** A table in which every code point outside the tabulated blocks is a
    caseless symbol. *)
Definition ucd_symbols : ucd := {|
  ucd_lower := fun _ c _ => [c];
  ucd_isupper := fun _ => false;
  ucd_islower := fun _ => false;
  ucd_istitle := fun _ => false;
  ucd_isspace := fun _ => false;
  ucd_isdecimal := fun _ => false;
  ucd_isalnum := fun _ => false
|}.

Definition in_range (lo hi c : N) : bool :=
  ((lo <=? c) && (c <=? hi))%N.

Definition tabulated (c : codepoint) : bool :=
  (c <? 0x100)%N || in_range 0x2200 0x22FF c.

Definition tab_isupper (c : codepoint) : bool :=
  in_range 0x41 0x5A c || in_range 0xC0 0xD6 c || in_range 0xD8 0xDE c.

Definition tab_islower (c : codepoint) : bool :=
  in_range 0x61 0x7A c || (c =? 0xAA)%N || (c =? 0xB5)%N || (c =? 0xBA)%N
  || in_range 0xDF 0xF6 c || in_range 0xF8 0xFF c.

Definition tab_isspace (c : codepoint) : bool :=
  in_range 0x09 0x0D c || in_range 0x1C 0x20 c || (c =? 0x85)%N || (c =? 0xA0)%N.

Definition tab_isdecimal (c : codepoint) : bool := in_range 0x30 0x39 c.

Definition tab_isalnum (c : codepoint) : bool :=
  in_range 0x30 0x39 c || in_range 0x41 0x5A c || in_range 0x61 0x7A c
  || (c =? 0xAA)%N || in_range 0xB2 0xB3 c || (c =? 0xB5)%N
  || in_range 0xB9 0xBA c || in_range 0xBC 0xBE c
  || in_range 0xC0 0xD6 c || in_range 0xD8 0xF6 c || in_range 0xF8 0xFF c.

Definition tab_lower (c : codepoint) : codepoint :=
  if tab_isupper c then (c + 32)%N else c.

Section Runtime.

Variable U : ucd.

Definition cp_isupper (c : codepoint) : bool :=
  if tabulated c then tab_isupper c else ucd_isupper U c.
Definition cp_islower (c : codepoint) : bool :=
  if tabulated c then tab_islower c else ucd_islower U c.
Definition cp_istitle (c : codepoint) : bool :=
  if tabulated c then false else ucd_istitle U c.
Definition cp_isspace (c : codepoint) : bool :=
  if tabulated c then tab_isspace c else ucd_isspace U c.
Definition cp_isdecimal (c : codepoint) : bool :=
  if tabulated c then tab_isdecimal c else ucd_isdecimal U c.
Definition cp_isalnum (c : codepoint) : bool :=
  if tabulated c then tab_isalnum c else ucd_isalnum U c.

(** *** [str.lower] *)

Definition lower_at (pre : str) (c : codepoint) (suf : str) : str :=
  if tabulated c then [tab_lower c] else ucd_lower U pre c suf.

Fixpoint lower_from (pre s : str) : str :=
  match s with
  | [] => []
  | c :: s' => lower_at pre c s' ++ lower_from (c :: pre) s'
  end.

Definition lower (s : str) : str := lower_from [] s.

(** *** [str.isupper]: no lowercase or titlecase code point and at least
    one uppercase one; a one-character string takes the interpreter's
    shortcut. *)

Fixpoint isupper_loop (s : str) (cased : bool) : bool :=
  match s with
  | [] => cased
  | c :: s' =>
      if cp_islower c || cp_istitle c then false
      else isupper_loop s' (cased || cp_isupper c)
  end.

Definition isupper (s : str) : bool :=
  match s with
  | [c] => cp_isupper c
  | _ => isupper_loop s false
  end.

(** *** [str.split()] on runs of whitespace, [str.split(sep)] on one
    separator character, [str.strip()], [sep.join(...)] *)

Fixpoint split_ws_from (cur s : str) : list str :=
  match s with
  | [] => match cur with [] => [] | _ => [rev cur] end
  | c :: s' =>
      if cp_isspace c
      then match cur with
           | [] => split_ws_from [] s'
           | _ => rev cur :: split_ws_from [] s'
           end
      else split_ws_from (c :: cur) s'
  end.

Definition split_ws (s : str) : list str := split_ws_from [] s.

Fixpoint split_from (sep : codepoint) (cur s : str) : list str :=
  match s with
  | [] => [rev cur]
  | c :: s' =>
      if (c =? sep)%N then rev cur :: split_from sep [] s'
      else split_from sep (c :: cur) s'
  end.

Definition split (sep : codepoint) (s : str) : list str := split_from sep [] s.

Fixpoint lstrip (s : str) : str :=
  match s with
  | c :: s' => if cp_isspace c then lstrip s' else s
  | [] => []
  end.

Definition rstrip (s : str) : str := rev (lstrip (rev s)).
Definition strip (s : str) : str := rstrip (lstrip s).

End Runtime.

Fixpoint join (sep : str) (l : list str) : str :=
  match l with
  | [] => []
  | [x] => x
  | x :: l' => x ++ sep ++ join sep l'
  end.

(** *** [p in s] on strings *)

Fixpoint startswith (p s : str) : bool :=
  match p, s with
  | [], _ => true
  | a :: p', b :: s' => (a =? b)%N && startswith p' s'
  | _ :: _, [] => false
  end.

Fixpoint str_in (p s : str) : bool :=
  startswith p s || match s with [] => false | _ :: s' => str_in p s' end.

(** [any(k in s for k in keywords)] *)
Definition any_in (keywords : list str) (s : str) : bool :=
  existsb (fun k => str_in k s) keywords.

(** [l.index(x)]: the first position holding [x]; [None] stands for the
    [ValueError] the caller sees. *)
Fixpoint index (x : str) (l : list str) : option nat :=
  match l with
  | [] => None
  | y :: l' => if str_eqb y x then Some 0 else option_map S (index x l')
  end.

(** ** The backtracking matcher of [re]

    Patterns are kept as syntax trees and run by a continuation-passing
    backtracking matcher with the interpreter's priorities: alternatives
    left to right, greedy repetition.  Every repetition in the patterns of
    this file has a body that consumes at least one code point. *)

Inductive regex :=
| Empty
| Chr (p : codepoint -> bool)
| Seq (r1 r2 : regex)
| Alt (r1 r2 : regex)
| Star (r : regex)
| Cap (n : nat) (r : regex)
| Bol
| Eol
| Wordb.

Declare Scope regex_scope.
Delimit Scope regex_scope with re.
Bind Scope regex_scope with regex.
Notation "r1 ;; r2" := (Seq r1 r2) (at level 61, right associativity) : regex_scope.
Notation "r1 || r2" := (Alt r1 r2) : regex_scope.

Definition Plus (r : regex) : regex := (r ;; Star r)%re.
Definition Opt (r : regex) : regex := (r || Empty)%re.

(** [r{n,}] *)
Fixpoint AtLeast (n : nat) (r : regex) : regex :=
  match n with
  | 0 => Star r
  | S n' => (r ;; AtLeast n' r)%re
  end.

Definition ch (c : N) : codepoint -> bool := fun d => (d =? c)%N.

Fixpoint Lit (s : str) : regex :=
  match s with
  | [] => Empty
  | [c] => Chr (ch c)
  | c :: s' => (Chr (ch c) ;; Lit s')%re
  end.

(** [a|b|...] *)
Fixpoint OneOf (l : list regex) : regex :=
  match l with
  | [] => Empty
  | [r] => r
  | r :: l' => (r || OneOf l')%re
  end.

(** The matcher's position: the text already behind it (reversed), the text
    ahead, and the groups captured so far (latest first). *)
Record mstate := {
  before : str;
  after : str;
  groups : list (nat * str)
}.

Definition at_pos (pre s : str) : mstate :=
  {| before := pre; after := s; groups := [] |}.

Definition consumed (st st' : mstate) : nat :=
  length (before st') - length (before st).

Definition capture (n : nat) (st st' : mstate) : mstate :=
  {| before := before st';
     after := after st';
     groups := (n, rev (firstn (consumed st st') (before st'))) :: groups st' |}.

Fixpoint lookup_group (n : nat) (g : list (nat * str)) : str :=
  match g with
  | [] => []
  | (m, s) :: g' => if Nat.eqb m n then s else lookup_group n g'
  end.

Definition group (n : nat) (st : mstate) : str := lookup_group n (groups st).

Section Matcher.

Variable U : ucd.

(** [\w], [\s], [\d] for [str] patterns *)
Definition re_word (c : codepoint) : bool := cp_isalnum U c || (c =? 0x5F)%N.
Definition re_space (c : codepoint) : bool := cp_isspace U c.
Definition re_digit (c : codepoint) : bool := cp_isdecimal U c.

Definition word_behind (st : mstate) : bool :=
  match before st with c :: _ => re_word c | [] => false end.
Definition word_ahead (st : mstate) : bool :=
  match after st with c :: _ => re_word c | [] => false end.

(** The loop of a greedy [r*]: [body] runs [r] once; an iteration has to
    move forward, so at most [n] of them fit in the [n] code points ahead. *)
Fixpoint star_loop (A : Type)
    (body : (mstate -> option A) -> mstate -> option A)
    (k : mstate -> option A) (n : nat) (st : mstate) : option A :=
  match n with
  | 0 => k st
  | S n' =>
      match body (fun st' =>
                    if length (after st') <? length (after st)
                    then star_loop body k n' st' else None) st with
      | Some a => Some a
      | None => k st
      end
  end.

Fixpoint rmatch (A : Type) (r : regex) (k : mstate -> option A) (st : mstate)
  : option A :=
  match r with
  | Empty => k st
  | Chr p =>
      match after st with
      | c :: s' =>
          if p c
          then k {| before := c :: before st; after := s'; groups := groups st |}
          else None
      | [] => None
      end
  | Seq r1 r2 => rmatch r1 (rmatch r2 k) st
  | Alt r1 r2 =>
      match rmatch r1 k st with
      | Some a => Some a
      | None => rmatch r2 k st
      end
  | Star r1 => star_loop (rmatch r1) k (length (after st)) st
  | Cap n r1 => rmatch r1 (fun st' => k (capture n st st')) st
  | Bol => match before st with [] => k st | _ :: _ => None end
  | Eol =>
      match after st with
      | [] => k st
      | [c] => if (c =? NL)%N then k st else None
      | _ => None
      end
  | Wordb => if xorb (word_behind st) (word_ahead st) then k st else None
  end.

(** [re.match]: anchored at the start of the string. *)
Definition re_match (r : regex) (s : str) : option mstate :=
  rmatch r (@Some mstate) (at_pos [] s).

(** [re.search]: the leftmost position at which the pattern matches. *)
Fixpoint search_from (r : regex) (pre s : str) : option mstate :=
  match rmatch r (@Some mstate) (at_pos pre s) with
  | Some st => Some st
  | None =>
      match s with
      | [] => None
      | c :: s' => search_from r (c :: pre) s'
      end
  end.

Definition re_search (r : regex) (s : str) : option mstate :=
  search_from r [] s.

(** [re.findall]: successive non-overlapping matches, left to right.  After
    a match of [n] code points the scan resumes [n] positions further ([skip]
    counts the positions still covered by the previous match). *)
Fixpoint scan (r : regex) (skip : nat) (pre s : str) : list mstate :=
  let here :=
    match skip with
    | 0 => rmatch r (@Some mstate) (at_pos pre s)
    | S _ => None
    end in
  match here with
  | Some st =>
      st :: match s with
            | [] => []
            | c :: s' => scan r (pred (consumed (at_pos pre s) st)) (c :: pre) s'
            end
  | None =>
      match s with
      | [] => []
      | c :: s' => scan r (pred skip) (c :: pre) s'
      end
  end.

(** With one group [findall] lists that group, with two it lists pairs. *)
Definition findall1 (r : regex) (s : str) : list str :=
  map (group 1) (scan r 0 [] s).
Definition findall2 (r : regex) (s : str) : list (str * str) :=
  map (fun st => (group 1 st, group 2 st)) (scan r 0 [] s).

End Matcher.

(** ** Exceptions

    A call either returns a value or raises; the only exception the
    functions of this file can raise is the [ValueError] of [list.index]. *)

Inductive exn := ValueError.

Inductive outcome (A : Type) :=
| Return (a : A)
| Raise (e : exn).

Arguments Return {A} a.
Arguments Raise {A} e.

(** ** The keyword tables and patterns of the source *)

Definition index_keywords : list str :=
  [u "table of contents"; u "index"; u "contents"; u "signature book"].

Definition sustainability_keywords : list str :=
  [u "sustainability"; u "environmental"; u "sostenibilidad"; u "medioambiental"].

Definition product_keywords : list str :=
  [u "dimensions"; u "designer"; u "collection"; u "×"; u "cm"; u "mm"].

Definition certification_keywords : list str :=
  [u "quality certifications"; u "sustainability certifications";
   u "certificados"; u "iso 9001"; u "iso 14001"].

Definition dimension_markers : list str :=
  [u "×"; u "x "; u "cm"; u "mm"].

Definition context_keywords : list str :=
  [u "designer"; u "collection"; u "material"; u "ceramic"; u "porcelain";
   u "tile"; u "estudi{h}ac"; u "dsignio"; u "alt design"; u "mut";
   u "yonoh"; u "stacy garcia"].

Definition name_context_markers : list str :=
  [u "×"; u "cm"; u "mm"; u "designer"; u "estudi"; u "dsignio"; u "yonoh"].

(** The alternatives of the second designer pattern and of the colour
    pattern, in the order of the source. *)
Definition designer_names : list str :=
  [u "ESTUDI{H}AC"; u "DSIGNIO"; u "ALT DESIGN"; u "MUT"; u "YONOH";
   u "Stacy Garcia NY"].

Definition color_names : list str :=
  [u "TAUPE"; u "SAND"; u "CLAY"; u "WHITE"; u "BLACK"; u "GREY"; u "GRAY";
   u "ANTHRACITE"; u "BEIGE"; u "BROWN"; u "MINT"; u "NAVY"; u "BORDEAUX"].

(** [[A-Z]] and [[a-z]] *)
Definition AZ : codepoint -> bool := in_range 0x41 0x5A.
Definition az : codepoint -> bool := in_range 0x61 0x7A.

Section Program.

Variable U : ucd.

Let space : regex := Chr (re_space U).
Let digit : regex := Chr (re_digit U).

(** The pattern [^[A-Z]{2,}(?:\s+[A-Z]{2,})*$] *)
Definition standalone_pattern : regex :=
  (Bol ;; AtLeast 2 (Chr AZ) ;; Star (Plus space ;; AtLeast 2 (Chr AZ)) ;; Eol)%re.

(** The pattern [\b( [A-Z]{3,}(?:\s+[A-Z]{3,})* )\b] (blanks added) *)
Definition uppercase_pattern : regex :=
  (Wordb ;;
   Cap 1 (AtLeast 3 (Chr AZ) ;; Star (Plus space ;; AtLeast 3 (Chr AZ))) ;;
   Wordb)%re.

(** The sub-pattern [\d+(?:,\d+)?] *)
Definition number : regex :=
  (Plus digit ;; Opt (Lit (u ",") ;; Plus digit))%re.

(** The pattern [(\d+(?:,\d+)?)\s*[×x]\s*(\d+(?:,\d+)?)\s*(?:cm|mm)?] *)
Definition dimension_pattern : regex :=
  (Cap 1 number ;; Star space ;;
   Chr (fun c => (ch 0xD7 c || ch 0x78 c)%bool) ;; Star space ;;
   Cap 2 number ;; Star space ;;
   Opt (Lit (u "cm") || Lit (u "mm")))%re.

Definition dimension_patterns : list regex := [dimension_pattern].

(** The pattern [(?:by|BY)\s+([A-Z][A-Za-z\s{}\-]+)] *)
Definition by_pattern : regex :=
  ((Lit (u "by") || Lit (u "BY")) ;; Plus space ;;
   Cap 1 (Chr AZ ;;
          Plus (Chr (fun c => (AZ c || az c || re_space U c
                               || ch 0x7B c || ch 0x7D c || ch 0x2D c)%bool))))%re.

(** The pattern [(ESTUDI\{H\}AC|DSIGNIO|ALT DESIGN|MUT|YONOH|Stacy Garcia NY)] *)
Definition studio_pattern : regex :=
  Cap 1 (OneOf (map Lit designer_names)).

Definition designer_patterns : list regex := [by_pattern; studio_pattern].

(** The pattern
    [\b(TAUPE|SAND|CLAY|WHITE|BLACK|GREY|GRAY|ANTHRACITE|BEIGE|BROWN|MINT|NAVY|BORDEAUX)\b] *)
Definition color_pattern : regex :=
  (Wordb ;; Cap 1 (OneOf (map Lit color_names)) ;; Wordb)%re.

Definition color_patterns : list regex := [color_pattern].

(** ** [test_is_valid_product_chunk] *)

Definition has_uppercase_name (content : str) : bool :=
  existsb (fun word => isupper U word && (2 <? length word)) (split_ws U content).

Definition has_dimensions (content : str) : bool :=
  any_in dimension_markers content.

Definition has_product_context (content_lower : str) : bool :=
  any_in context_keywords content_lower.

Definition test_is_valid_product_chunk (content : str) : bool :=
  let content_lower := lower U content in
  if length content <? 100 then false
  else if any_in index_keywords content_lower then false
  else if any_in sustainability_keywords content_lower
          && negb (any_in product_keywords content_lower) then false
  else if any_in certification_keywords content_lower
          && negb (any_in product_keywords content_lower) then false
  else
    let product_score :=
      Nat.b2n (has_uppercase_name content)
      + Nat.b2n (has_dimensions content)
      + Nat.b2n (has_product_context content_lower) in
    2 <=? product_score.

(** ** [test_extract_product_name] *)

(** The standalone test of one stripped line. *)
Definition standalone (line : str) : bool :=
  match re_match U standalone_pattern line with
  | Some _ => length line <=? 20
  | None => false
  end.

(** The second rule on one stripped line: the candidate run, then the
    window [lines[lines.index(line):lines.index(line)+3]].  [Return None]
    means that the loop goes on to the next line. *)
Definition embedded (lines : list str) (line : str) : outcome (option str) :=
  match re_search U uppercase_pattern line with
  | Some uppercase_match =>
      let candidate := strip U (group 1 uppercase_match) in
      match index line lines with
      | None => Raise ValueError
      | Some i =>
          let next_lines := join [NL] (firstn 3 (skipn i lines)) in
          if any_in name_context_markers (lower U next_lines)
          then Return (Some candidate)
          else Return None
      end
  | None => Return None
  end.

(** The body of [for line in lines[:10]], over the lines still to visit. *)
Fixpoint name_loop (lines todo : list str) : outcome (option str) :=
  match todo with
  | [] => Return None
  | raw :: rest =>
      let line := strip U raw in
      if standalone line then Return (Some (strip U line))
      else
        match embedded lines line with
        | Return None => name_loop lines rest
        | r => r
        end
  end.

Definition test_extract_product_name (content : str) : outcome (option str) :=
  let lines := split NL content in
  name_loop lines (firstn 10 lines).

(** ** [test_extract_product_metadata]

    The dictionary has at most the keys ['dimensions'], ['designer'] and
    ['colors']; a key that was never assigned is [None]. *)

Record metadata := {
  dimensions : option str;
  designer : option str;
  colors : option (list str)
}.

(** [for pattern in dimension_patterns: ... break] *)
Fixpoint extract_dimensions (patterns : list regex) (content : str) : option str :=
  match patterns with
  | [] => None
  | pattern :: rest =>
      match findall2 U pattern content with
      | (a, b) :: _ => Some (a ++ u "×" ++ b)
      | [] => extract_dimensions rest content
      end
  end.

(** [for pattern in designer_patterns: ... break]; a first match that is
    too short does not stop the loop. *)
Fixpoint extract_designer (patterns : list regex) (content : str) : option str :=
  match patterns with
  | [] => None
  | pattern :: rest =>
      match findall1 U pattern content with
      | m :: _ =>
          let designer := strip U m in
          if 2 <? length designer then Some designer
          else extract_designer rest content
      | [] => extract_designer rest content
      end
  end.

(** [colors.extend(matches)] for each pattern *)
Definition collect_colors (patterns : list regex) (content : str) : list str :=
  flat_map (fun pattern => findall1 U pattern content) patterns.

(** [list(set(colors))]: the distinct elements; Python fixes no order, the
    model keeps one occurrence of each. *)
Definition list_set (l : list str) : list str := nodup str_eq_dec l.

Definition test_extract_product_metadata (content : str) : metadata :=
  {| dimensions := extract_dimensions dimension_patterns content;
     designer := extract_designer designer_patterns content;
     colors :=
       match collect_colors color_patterns content with
       | [] => None
       | colors => Some (list_set colors)
       end |}.

End Program.

(** ** The sample chunks of [test_content_filtering] *)

Definition q59_line : str :=
  u "Q59 (11,8x11,8 cm − 4[5/8]x4[5/8]" ++ [DQUOTE] ++ u ")".

(** chunk 4 *)
Definition valenova_chunk : str :=
  join [NL]
    [ u "39661  VALENOVA TAUPE LT/11,8X11,8"; q59_line; [];
      u "12 patterns · ** 43 Kerakoll"; []; [];
      u "39660  VALENOVA SAND LT/11,8X11,8"; q59_line; []; [];
      u "39659  VALENOVA CLAY LT/11,8X11,8"; q59_line; [];
      u "12 patterns · ** 43 Kerakoll"; []; [];
      u "39658  VALENOVA WHITE LT/11,8X11,8"; q59_line; [];
      u "12 patterns · ** 1 Kerakoll"; [];
      u "by Stacy Garcia NY" ].

(** chunk 5 *)
Definition pique_chunk : str :=
  join [NL]
    [ u "-----"; [];
      u "PIQUÉ";
      u "by Estudi{H}ac"; []; [];
      u "PIQUÉ, a new collection for HARMONY by José Manuel Ferrero from design studio estudi{H}ac, is";
      u "inspired by an 18th century mechanized technique for weaving double cloth with a raised pattern.";
      u "The collection features ceramic tiles with a distinctive textured surface that mimics the piqué fabric technique." ].

(** ** Vocabulary of the statements *)

(** [p] occurs in [s] as a contiguous run of code points. *)
Definition substring (p s : str) : Prop := exists a b, s = a ++ p ++ b.

(** Some keyword of the table occurs in [s]. *)
Definition mentions (keywords : list str) (s : str) : Prop :=
  exists k, In k keywords /\ substring k s.

(** A code point that [str.lower] leaves alone whatever surrounds it. *)
Definition lower_stable (c : codepoint) : bool :=
  tabulated c && (tab_lower c =? c)%N.

(** The standalone-line rule in the words of the specification: the whole
    line is one or more tokens of at least 2 letters A-Z each, separated by
    single spaces, and the line is at most 20 code points long. *)
Definition SPACE : codepoint := 32%N.

Definition upper_token (t : str) : bool :=
  (2 <=? length t) && forallb AZ t.

Definition single_spaced_upper (line : str) : bool :=
  forallb upper_token (split SPACE line) && (length line <=? 20).

Section Rules.

Variable U : ucd.

(** The three exclusion rules of the validator. *)
Definition index_rule (content : str) : Prop :=
  mentions index_keywords (lower U content).

Definition sustainability_rule (content : str) : Prop :=
  mentions sustainability_keywords (lower U content)
  /\ ~ mentions product_keywords (lower U content).

Definition certification_rule (content : str) : Prop :=
  mentions certification_keywords (lower U content)
  /\ ~ mentions product_keywords (lower U content).

(** The three product indicators. *)
Definition ends_in_space (a : str) : Prop :=
  a = [] \/ exists a' c, a = a' ++ [c] /\ cp_isspace U c = true.

Definition starts_with_space (b : str) : Prop :=
  b = [] \/ exists c b', b = c :: b' /\ cp_isspace U c = true.

(** [w] is a whitespace-delimited token of [s]: a non-empty run without
    whitespace that has whitespace or an end of the text on either side. *)
Definition token (w s : str) : Prop :=
  w <> [] /\ Forall (fun c => cp_isspace U c = false) w
  /\ exists a b, s = a ++ w ++ b /\ ends_in_space a /\ starts_with_space b.

Definition uppercase_token (content : str) : Prop :=
  exists word, token word content
               /\ isupper U word = true /\ 2 < length word.

Definition dimension_like (content : str) : Prop :=
  mentions dimension_markers content.

Definition product_context (content : str) : Prop :=
  mentions context_keywords (lower U content).

End Rules.

(** ** What a pattern matches

    [derives r st st'] : from position [st] the pattern [r] can take the
    matcher to position [st'].  The matcher returns only such positions
    ([rmatch_sound]) and finds one whenever there is one
    ([rmatch_complete]). *)

Section MatchRelation.

Variable U : ucd.

Inductive derives : regex -> mstate -> mstate -> Prop :=
| d_empty st : derives Empty st st
| d_chr p st c s :
    after st = c :: s -> p c = true ->
    derives (Chr p) st
      {| before := c :: before st; after := s; groups := groups st |}
| d_seq r1 r2 st st1 st2 :
    derives r1 st st1 -> derives r2 st1 st2 -> derives (Seq r1 r2) st st2
| d_alt_l r1 r2 st st' : derives r1 st st' -> derives (Alt r1 r2) st st'
| d_alt_r r1 r2 st st' : derives r2 st st' -> derives (Alt r1 r2) st st'
| d_star_stop r st : derives (Star r) st st
| d_star_step r st st1 st2 :
    derives r st st1 -> length (after st1) < length (after st) ->
    derives (Star r) st1 st2 -> derives (Star r) st st2
| d_cap n r st st' : derives r st st' -> derives (Cap n r) st (capture n st st')
| d_bol st : before st = [] -> derives Bol st st
| d_eol st : after st = [] \/ after st = [NL] -> derives Eol st st
| d_wordb st :
    xorb (word_behind U st) (word_ahead U st) = true -> derives Wordb st st.

End MatchRelation.

(** ** Vocabulary of the metadata statements *)

(** [w] stands in [content] as a whole word: no word character right
    before it and none right after it. *)
Definition no_word_first (U : ucd) (s : str) : Prop :=
  match s with
  | c :: _ => re_word U c = false
  | [] => True
  end.

Definition whole_word (U : ucd) (w content : str) : Prop :=
  exists a b, content = a ++ w ++ b
              /\ no_word_first U (rev a) /\ no_word_first U b.

(** [st] is the first match that [findall] reports for [r] in [content]. *)
Definition first_match (U : ucd) (r : regex) (content : str) (st : mstate) : Prop :=
  exists rest, scan U r 0 [] content = st :: rest.

(** The pattern matches at some position of the text, ending in [st]. *)
Definition matches_in (U : ucd) (r : regex) (content : str) (st : mstate) : Prop :=
  exists a b, content = a ++ b /\ derives U r (at_pos (rev a) b) st.

(** The text after the first token: each further token behind one space. *)
Definition tail_text (tokens : list str) : str :=
  flat_map (fun t => SPACE :: t) tokens.

(** ** Further concrete inputs *)

(** A chunk with the three keywords of C7 that is too short, and a long one
    that also says "index". *)
Definition short_sustainability_chunk : str :=
  u "sustainability designer cm".

Definition indexed_sustainability_chunk : str :=
  u "Our sustainability report is indexed by designer: every ceramic tile of the series measures 20x20 cm or 30x30 cm.".

Definition long_sustainability_chunk : str :=
  u "Our sustainability report, by designer: every ceramic tile of the new series measures 20x20 cm or 30x30 cm in size.".



(** An indented line with an uppercase run. *)
Definition indented_line : str := u " FOO cm".

(** ** The other sample chunks of [test_content_filtering] *)

(** chunk 0 *)
Definition index_page_chunk : str :=
  join [NL]
    [ u "###### 24 − 25";
      [];
      u "Stacy Garcia NY";
      u "Estudi{H}ac";
      u "Dsignio";
      u "ALT Design";
      u "Mut";
      u "Yonoh";
      u "Fran Silvestre";
      [];
      u "-----";
      [];
      u "**Fresh inspiration**";
      [];
      u "-----";
      [];
      u "**INDEX**";
      [];
      u "_Signature book_";
      [];
      u "_Sustainability_ _‒ Sostenibilidad_";
      [];
      u "8";
      [];
      u "_Quality certifications_ _‒ Certificados de calidad_";
      [];
      u "10";
      [];
      u "_Sustainability certifications_ _‒ Certificados de sostenibilidad_";
      [];
      u "12";
      [];
      u "_Technical characteristics_ _‒ Características técnicas_";
      [];
      u "14";
      [];
      u "_FOLD_ _‒ FOLD_";
      [];
      u "6";
      [];
      u "_BEAT_ _‒ BEAT_";
      [];
      u "8";
      [];
      u "_VALENOVA_ _‒ VALENOVA_";
      [];
      u "23";
      [];
      u "_PIQUÉ_ _‒ PIQUÉ_";
      [];
      u "38";
      [];
      u "_ONA_ _‒ ONA_";
      [];
      u "52";
      [];
      u "_MARE_ _‒ MARE_";
      [];
      u "66";
      [];
      u "_LOG_ _‒ LOG_";
      [];
      u "74";
      [];
      u "_BOW_ _‒ BOW_";
      [];
      u "84";
      [];
      u "_LINS_ _‒ LINS_";
      [];
      u "94";
      [];
      u "_MAISON_ _‒ MAISON_";
      [];
      u "116" ].

(** chunk 1 *)
Definition sostenibilidad_chunk : str :=
  join [NL]
    [ u "-----";
      [];
      u "**Sostenibilidad**";
      [];
      u "_Medioambiental y social_";
      [];
      u "**RENDIMIENTO MEDIOAMBIENTAL**";
      u "El respeto por el entorno y el compromiso con la sostenibilidad son";
      u "fundamentales para HARMONY. Buscamos que nuestros productos sean";
      u "respetuosos con el medio ambiente y contribuyan a la construcción";
      u "sostenible." ].

(** chunk 2 *)
Definition certifications_chunk : str :=
  join [NL]
    [ u "-----";
      [];
      u "**Quality certifications** **Sustainability certifications**";
      [];
      u "_Certificados de calidad_ _Certificados de sostenibilidad_";
      [];
      u "Quality management system in compliance with Sistema de gestión de la calidad conforme a la";
      u "UNE-EN ISO 9001:2015 UNE-EN ISO 9001:2015";
      [];
      u "Environmental management system in compliance with Sistema de gestión medioambiental conforme a la";
      u "UNE-EN ISO 14001:2015 UNE-EN ISO 14001:2015" ].

(** chunk 50 *)
Definition lins_chunk : str :=
  join [NL]
    [ u "-----";
      [];
      u "LINS MINT LINS NAVY";
      [];
      u "-----";
      [];
      u "21716 LINS WHITE";
      u "Q7 (20x20 cm − 7[7/8]x7[7/8]" ++ [DQUOTE] ++ u ")";
      [];
      u "*** 4 patterns · * 100 Mapei";
      [];
      [];
      u "31688 LINS BORDEAUX";
      u "Q7 (20x20 cm − 7[7/8]x7[7/8]" ++ [DQUOTE] ++ u ")";
      [];
      u "*** 4 patterns · **143 Kerakoll";
      [];
      u "by YONOH" ].

(** Every character class of the pattern lies within [P]. *)
Fixpoint classes_within (P : codepoint -> Prop) (r : regex) : Prop :=
  match r with
  | Chr p => forall c, p c = true -> P c
  | Seq r1 r2 => classes_within P r1 /\ classes_within P r2
  | Alt r1 r2 => classes_within P r1 /\ classes_within P r2
  | Star r1 => classes_within P r1
  | Cap _ r1 => classes_within P r1
  | _ => True
  end.

(** The characters a returned name is made of: letters A-Z and
    whitespace. *)
Definition name_char (U : ucd) (c : codepoint) : Prop :=
  AZ c = true \/ cp_isspace U c = true.

(** The first [skip] positions of [s] each have a word character right
    before them (they lie inside the match that [findall] found last). *)
Definition word_first (U : ucd) (s : str) : Prop :=
  match s with
  | c :: _ => re_word U c = true
  | [] => False
  end.

Fixpoint covered (U : ucd) (skip : nat) (pre s : str) : Prop :=
  match skip with
  | 0 => True
  | S k =>
      word_first U pre
      /\ match s with
         | [] => True
         | c :: s' => covered U k (c :: pre) s'
         end
  end.

(** The dimension pattern in words: a decimal number is a non-empty run of
    digits, possibly followed by a comma and another such run; a dimension
    text is a digit, optional whitespace, a separator (the multiplication
    sign or a lowercase x), optional whitespace and a digit. *)
Definition digits (U : ucd) (w : str) : Prop :=
  w <> [] /\ Forall (fun c => re_digit U c = true) w.

Definition decimal_number (U : ucd) (n : str) : Prop :=
  digits U n \/ exists i f, n = i ++ u "," ++ f /\ digits U i /\ digits U f.

Definition is_separator (c : codepoint) : Prop := c = 0xD7%N \/ c = 0x78%N.

Definition dimension_text (U : ucd) (content : str) : Prop :=
  exists a d1 w1 sep w2 d2 b,
    content = a ++ d1 :: w1 ++ sep :: w2 ++ d2 :: b
    /\ re_digit U d1 = true /\ re_digit U d2 = true
    /\ Forall (fun c => re_space U c = true) w1
    /\ Forall (fun c => re_space U c = true) w2
    /\ is_separator sep.

(** The numbers of the groups a pattern can set. *)
Fixpoint captures (r : regex) : list nat :=
  match r with
  | Seq r1 r2 => captures r1 ++ captures r2
  | Alt r1 r2 => captures r1 ++ captures r2
  | Star r1 => captures r1
  | Cap n r1 => n :: captures r1
  | _ => []
  end.

(** The characters a designer value is made of: the class
    [[A-Za-z\s{}\-]] of the "by" pattern. *)
Definition designer_char (U : ucd) (c : codepoint) : Prop :=
  (AZ c || az c || re_space U c || ch 0x7B c || ch 0x7D c || ch 0x2D c)%bool
  = true.

(** ** [test_content_filtering]

    The driver runs the validator on each sample chunk and, for a chunk that
    is accepted and expected to be accepted, compares what the extractors
    return with the expected values the chunk carries.  What it prints is
    kept as a list of events; an exception of the name extractor is not
    caught and ends the run. *)

Record chunk := {
  chunk_index : nat;
  chunk_content : str;
  expected_valid : bool;
  expected_reason : str;
  expected_name : option str;
  expected_dimensions : option str;
  expected_designer : option str;
  expected_colors : option (list str)
}.

Inductive verdict := PASS | FAIL.

Inductive event :=
| Validity (index : nat) (is_valid : bool) (status : verdict)
| Name (extracted_name : option str) (status : verdict)
| Dimensions (got : option str) (status : verdict)
| Designer (got : option str) (status : verdict)
| Colors (got : list str) (status : verdict).

(** [a == b] where [a] comes from [dict.get] or from the name extractor. *)
Definition option_str_eqb (a : option str) (b : str) : bool :=
  match a with
  | Some x => str_eqb x b
  | None => false
  end.

Definition status_of (ok : bool) : verdict := if ok then PASS else FAIL.

(** [color in colors] *)
Definition list_in (x : str) (l : list str) : bool := existsb (str_eqb x) l.

Section Driver.

Variable U : ucd.

(** The checks after the name check: each runs only when the chunk carries
    a non-empty expected value. *)
Definition metadata_events (c : chunk) (m : metadata) : list event :=
  match expected_dimensions c with
  | Some (x :: e) =>
      [Dimensions (dimensions m)
         (status_of (option_str_eqb (dimensions m) (x :: e)))]
  | _ => []
  end
  ++ match expected_designer c with
     | Some (x :: e) =>
         [Designer (designer m)
            (status_of (option_str_eqb (designer m) (x :: e)))]
     | _ => []
     end
  ++ match expected_colors c with
     | Some (x :: e) =>
         let colors := match colors m with Some l => l | None => [] end in
         [Colors colors
            (status_of (forallb (fun color => list_in color colors) (x :: e)))]
     | _ => []
     end.

(** The body of the loop over the chunks. *)
Definition check_chunk (c : chunk) : list event * option exn :=
  let is_valid := test_is_valid_product_chunk U (chunk_content c) in
  let status := status_of (Bool.eqb is_valid (expected_valid c)) in
  let shown := [Validity (chunk_index c) is_valid status] in
  if is_valid && expected_valid c then
    match test_extract_product_name U (chunk_content c) with
    | Raise e => (shown, Some e)
    | Return extracted_name =>
        let name_event :=
          match expected_name c with
          | Some (x :: e) =>
              [Name extracted_name
                 (match extracted_name with
                  | Some n => status_of (str_eqb n (x :: e))
                  | None => FAIL
                  end)]
          | _ => []
          end in
        let metadata := test_extract_product_metadata U (chunk_content c) in
        (shown ++ name_event ++ metadata_events c metadata, None)
    end
  else (shown, None).

Fixpoint run (chunks : list chunk) : list event * option exn :=
  match chunks with
  | [] => ([], None)
  | c :: rest =>
      match check_chunk c with
      | (shown, Some e) => (shown, Some e)
      | (shown, None) =>
          let (later, r) := run rest in (shown ++ later, r)
      end
  end.

End Driver.

Definition sample_0 : chunk :=
  {| chunk_index := 0; chunk_content := index_page_chunk;
     expected_valid := false; expected_reason := u "Index page";
     expected_name := None; expected_dimensions := None;
     expected_designer := None; expected_colors := None |}.

Definition sample_1 : chunk :=
  {| chunk_index := 1; chunk_content := sostenibilidad_chunk;
     expected_valid := false; expected_reason := u "Sustainability content";
     expected_name := None; expected_dimensions := None;
     expected_designer := None; expected_colors := None |}.

Definition sample_2 : chunk :=
  {| chunk_index := 2; chunk_content := certifications_chunk;
     expected_valid := false; expected_reason := u "Certification content";
     expected_name := None; expected_dimensions := None;
     expected_designer := None; expected_colors := None |}.

Definition sample_4 : chunk :=
  {| chunk_index := 4; chunk_content := valenova_chunk;
     expected_valid := true;
     expected_reason := u "VALENOVA product with dimensions and designer";
     expected_name := Some (u "VALENOVA");
     expected_dimensions := Some (u "11,8×11,8");
     expected_designer := Some (u "Stacy Garcia NY");
     expected_colors := Some [u "TAUPE"; u "SAND"; u "CLAY"; u "WHITE"] |}.

Definition sample_5 : chunk :=
  {| chunk_index := 5; chunk_content := pique_chunk;
     expected_valid := true;
     expected_reason := u "PIQUÉ product with designer";
     expected_name := Some (u "PIQUÉ");
     expected_dimensions := None;
     expected_designer := Some (u "Estudi{H}ac");
     expected_colors := None |}.

Definition sample_50 : chunk :=
  {| chunk_index := 50; chunk_content := lins_chunk;
     expected_valid := true;
     expected_reason := u "LINS product with dimensions and designer";
     expected_name := Some (u "LINS");
     expected_dimensions := Some (u "20×20");
     expected_designer := Some (u "YONOH");
     expected_colors := Some [u "MINT"; u "NAVY"; u "WHITE"; u "BORDEAUX"] |}.

Definition test_chunks : list chunk :=
  [sample_0; sample_1; sample_2; sample_4; sample_5; sample_50].

Definition test_content_filtering (U : ucd) : list event * option exn :=
  run U test_chunks.

(** What a line of the report is about, and its verdict. *)
Inductive check :=
| ValidityOf (index : nat)
| NameCheck
| DimensionsCheck
| DesignerCheck
| ColorsCheck.

Definition outline (e : event) : check * verdict :=
  match e with
  | Validity i _ s => (ValidityOf i, s)
  | Name _ s => (NameCheck, s)
  | Dimensions _ s => (DimensionsCheck, s)
  | Designer _ s => (DesignerCheck, s)
  | Colors _ s => (ColorsCheck, s)
  end.

(** ** [test_two_stage_classification.py]: [has_product_indicators] and
    [analyze_chunk_types]

    Under [re.IGNORECASE] a lowercase ASCII letter of a pattern matches
    itself, its capital and, for "i" and "s", the code points the
    interpreter identifies with them (U+0130 and U+0131 with "i", U+017F
    with "s"); any other character of the patterns below matches itself
    only. *)
Definition ci (c : N) : codepoint -> bool :=
  fun d =>
    ((d =? c)%N
     || (az c && (d =? c - 32)%N)
     || ((c =? 0x69)%N && ((d =? 0x130)%N || (d =? 0x131)%N))
     || ((c =? 0x73)%N && (d =? 0x17F)%N))%bool.

Fixpoint LitCI (s : str) : regex :=
  match s with
  | [] => Empty
  | [c] => Chr (ci c)
  | c :: s' => (Chr (ci c) ;; LitCI s')%re
  end.

(** The result of [analyze_chunk_types]: the four counters of the
    dictionary. *)
Record analysis := {
  index_count : nat;
  sustainability_count : nat;
  product_like_count : nat;
  other_count : nat
}.

(** The number of chunks an analysis has counted. *)
Definition total (a : analysis) : nat :=
  index_count a + sustainability_count a + product_like_count a + other_count a.

Section TwoStage.

Variable U : ucd.

(** The pattern [\b[A-Z]{3,}\b] *)
Definition capitals_pattern : regex :=
  (Wordb ;; AtLeast 3 (Chr AZ) ;; Wordb)%re.

(** The pattern [\d+[×x]\d+|cm|mm] *)
Definition measure_pattern : regex :=
  ((Plus (Chr (re_digit U)) ;;
    Chr (fun c => (ch 0xD7 c || ch 0x78 c)%bool) ;;
    Plus (Chr (re_digit U)))
   || (Lit (u "cm") || Lit (u "mm")))%re.

(** The pattern [designer|by |estudi|dsignio|yonoh|stacy garcia] under
    [re.IGNORECASE] *)
Definition credit_pattern : regex :=
  OneOf (map LitCI [u "designer"; u "by "; u "estudi"; u "dsignio";
                    u "yonoh"; u "stacy garcia"]).

(** [bool(re.search(pattern, content))] *)
Definition found (r : regex) (content : str) : bool :=
  match re_search U r content with
  | Some _ => true
  | None => false
  end.

Definition has_product_indicators (content : str) : bool :=
  let has_uppercase := found capitals_pattern content in
  let has_dimensions := found measure_pattern content in
  let has_designer := found credit_pattern content in
  (has_uppercase && has_dimensions) || (has_uppercase && has_designer).

(** One turn of the loop; a chunk is read only through its ['content']. *)
Definition count_chunk (a : analysis) (chunk_content : str) : analysis :=
  let content := lower U chunk_content in
  if any_in [u "index"; u "table of contents"; u "signature book"] content
  then {| index_count := index_count a + 1;
          sustainability_count := sustainability_count a;
          product_like_count := product_like_count a;
          other_count := other_count a |}
  else if any_in [u "sustainability"; u "environmental"; u "sostenibilidad"]
            content
  then {| index_count := index_count a;
          sustainability_count := sustainability_count a + 1;
          product_like_count := product_like_count a;
          other_count := other_count a |}
  else if has_product_indicators content
  then {| index_count := index_count a;
          sustainability_count := sustainability_count a;
          product_like_count := product_like_count a + 1;
          other_count := other_count a |}
  else {| index_count := index_count a;
          sustainability_count := sustainability_count a;
          product_like_count := product_like_count a;
          other_count := other_count a + 1 |}.

Definition analyze_chunk_types (chunks : list str) : analysis :=
  fold_left count_chunk chunks
    {| index_count := 0; sustainability_count := 0;
       product_like_count := 0; other_count := 0 |}.

End TwoStage.

(** The lowercase mapping of the table never yields a letter A-Z (as in
    the Unicode character database). *)
Definition lowercase_has_no_capitals (U : ucd) : Prop :=
  forall pre c suf x,
    tabulated c = false -> In x (ucd_lower U pre c suf) -> AZ x = false.

(** ** Vocabulary of the name extractor's statements *)





(** ** Strings: search and lowercase *)

Lemma startswith_iff (p s : str) :
  startswith p s = true <-> exists b, s = p ++ b.
Proof.
  revert s; induction p as [|a p IH]; intros s; simpl.
  - split; [exists s; reflexivity | reflexivity].
  - destruct s as [|b s].
    + split; [discriminate | intros [t H]; discriminate].
    + rewrite andb_true_iff, N.eqb_eq, IH. split.
      * intros [-> [t ->]]. exists t. reflexivity.
      * intros [t H]. injection H as -> ->. split; [reflexivity | exists t; reflexivity].
Qed.

Lemma str_in_iff (p s : str) : str_in p s = true <-> substring p s.
Proof.
  unfold substring. induction s as [|c s IH].
  - simpl. rewrite orb_false_r, startswith_iff. split.
    + intros [b H]. exists [], b. exact H.
    + intros [a [b H]]. destruct a; [exists b; exact H | discriminate].
  - simpl. rewrite orb_true_iff, startswith_iff, IH. split.
    + intros [[b H] | [a [b H]]].
      * exists [], b. exact H.
      * exists (c :: a), b. simpl. now rewrite H.
    + intros [a [b H]]. destruct a as [|x a].
      * left. exists b. exact H.
      * right. simpl in H. injection H as _ H. exists a, b. exact H.
Qed.

Lemma any_in_iff (keywords : list str) (s : str) :
  any_in keywords s = true <-> mentions keywords s.
Proof.
  unfold any_in, mentions. rewrite existsb_exists.
  split; intros [k [Hk H]]; exists k; split; auto; now apply str_in_iff.
Qed.

Lemma any_in_false_iff (keywords : list str) (s : str) :
  any_in keywords s = false <-> ~ mentions keywords s.
Proof.
  rewrite <- any_in_iff. destruct (any_in keywords s); split; congruence.
Qed.

Lemma substring_app_l (p a s : str) : substring p s -> substring p (a ++ s).
Proof.
  intros [x [y ->]]. exists (a ++ x), y. now rewrite app_assoc.
Qed.

Lemma substring_app_r (p s b : str) : substring p s -> substring p (s ++ b).
Proof.
  intros [x [y ->]]. exists x, (y ++ b). now rewrite <- !app_assoc.
Qed.

(** [str.lower] maps a stable run to itself, wherever it stands. *)
Lemma lower_from_stable (U : ucd) (p b pre : str) :
  forallb lower_stable p = true ->
  lower_from U pre (p ++ b) = p ++ lower_from U (rev p ++ pre) b.
Proof.
  revert pre; induction p as [|x p IH]; intros pre H; simpl in *.
  - reflexivity.
  - apply andb_true_iff in H as [Hx Hp].
    unfold lower_stable in Hx. apply andb_true_iff in Hx as [Ht Hl].
    apply N.eqb_eq in Hl. unfold lower_at. rewrite Ht, Hl. simpl. f_equal.
    rewrite IH by assumption. now rewrite <- app_assoc.
Qed.

Lemma lower_from_split (U : ucd) (a b pre : str) :
  exists x, lower_from U pre (a ++ b) = x ++ lower_from U (rev a ++ pre) b.
Proof.
  revert pre; induction a as [|c a IH]; intros pre.
  - exists []. reflexivity.
  - simpl. destruct (IH (c :: pre)) as [x E].
    exists (lower_at U pre c (a ++ b) ++ x).
    rewrite E, <- !app_assoc. reflexivity.
Qed.

Lemma lower_keeps (U : ucd) (p s : str) :
  forallb lower_stable p = true ->
  substring p s -> substring p (lower U s).
Proof.
  intros Hp [a [b ->]]. unfold lower.
  destruct (lower_from_split U a (p ++ b) []) as [x ->].
  rewrite lower_from_stable by assumption.
  exists x, (lower_from U (rev p ++ rev a ++ []) b). reflexivity.
Qed.

(** ** The validator *)

Section Validator.

Variable U : ucd.

(** [str.split()] lists exactly the whitespace-delimited tokens. *)

Lemma ends_in_space_prepend (p a : str) (c : codepoint) :
  cp_isspace U c = true -> ends_in_space U a -> ends_in_space U (p ++ c :: a).
Proof.
  intros Hc [-> | [a' [x [-> Hx]]]]; right.
  - exists p, c. auto.
  - exists (p ++ c :: a'), x. split; [|exact Hx].
    now rewrite <- app_assoc.
Qed.

Lemma split_ws_from_sound (s : str) :
  forall cur w,
    Forall (fun c => cp_isspace U c = false) cur ->
    In w (split_ws_from U cur s) ->
    w <> [] /\ Forall (fun c => cp_isspace U c = false) w
    /\ exists a b, rev cur ++ s = a ++ w ++ b
                   /\ ends_in_space U a /\ starts_with_space U b.
Proof.
  induction s as [|c s IH]; intros cur w Hcur Hin; simpl in Hin.
  - destruct cur as [|y cur]; [destruct Hin|].
    destruct Hin as [<- | []]. split; [|split].
    + intros E. apply (f_equal (@rev codepoint)) in E.
      rewrite rev_involutive in E. discriminate.
    + apply Forall_rev. exact Hcur.
    + exists [], []. rewrite !app_nil_r. split; [reflexivity|].
      split; left; reflexivity.
  - destruct (cp_isspace U c) eqn:Hc.
    + assert (Hrest : In w (split_ws_from U [] s) ->
                w <> [] /\ Forall (fun c => cp_isspace U c = false) w
                /\ exists a b, rev cur ++ c :: s = a ++ w ++ b
                   /\ ends_in_space U a /\ starts_with_space U b).
      { intros H. destruct (IH [] w (Forall_nil _) H) as [Hw [Hns [a [b [E [Ha Hb]]]]]].
        split; [exact Hw|]. split; [exact Hns|].
        exists (rev cur ++ c :: a), b. simpl in E. rewrite E. split.
        - now rewrite <- app_assoc.
        - split; [now apply ends_in_space_prepend | exact Hb]. }
      destruct cur as [|y cur]; [exact (Hrest Hin)|].
      destruct Hin as [<- | Hin]; [|exact (Hrest Hin)].
      split; [|split].
      * intros E. apply (f_equal (@rev codepoint)) in E.
        rewrite rev_involutive in E. discriminate.
      * apply Forall_rev. exact Hcur.
      * exists [], (c :: s). split; [reflexivity|].
        split; [left; reflexivity | right; exists c, s; auto].
    + destruct (IH (c :: cur) w) as [Hw [Hns [a [b [E [Ha Hb]]]]]];
        [constructor; assumption | exact Hin |].
      split; [exact Hw|]. split; [exact Hns|].
      exists a, b. split; [|auto]. rewrite <- E. simpl.
      now rewrite <- app_assoc.
Qed.

Lemma split_ws_from_skip (a : str) (c : codepoint) (s : str) :
  cp_isspace U c = true ->
  forall cur, exists l,
    split_ws_from U cur (a ++ c :: s) = l ++ split_ws_from U [] s.
Proof.
  intros Hc. induction a as [|x a IH]; intros cur; simpl.
  - rewrite Hc. destruct cur; [exists [] | eexists [_]]; reflexivity.
  - destruct (cp_isspace U x).
    + destruct (IH []) as [l E]. rewrite E.
      destruct cur; [exists l | eexists (_ :: l)]; reflexivity.
    + apply IH.
Qed.

Lemma split_ws_from_run (w : str) :
  Forall (fun c => cp_isspace U c = false) w ->
  forall cur s, split_ws_from U cur (w ++ s) = split_ws_from U (rev w ++ cur) s.
Proof.
  induction 1 as [|c w Hc _ IH]; intros cur s; [reflexivity|].
  simpl. rewrite Hc, IH. now rewrite <- app_assoc.
Qed.

Lemma split_ws_token (w s : str) : In w (split_ws U s) <-> token U w s.
Proof.
  split.
  - intros H. exact (@split_ws_from_sound s [] w (Forall_nil _) H).
  - intros [Hw [Hns [a [b [-> [Ha Hb]]]]]].
    assert (Hhere : In w (split_ws_from U [] (w ++ b))).
    { rewrite split_ws_from_run by assumption. rewrite app_nil_r.
      destruct (rev w) as [|y r] eqn:Er.
      - apply (f_equal (@rev codepoint)) in Er.
        rewrite rev_involutive in Er. contradiction.
      - rewrite <- Er.
        destruct Hb as [-> | [c [b' [-> Hc]]]]; simpl.
        + rewrite Er at 1. rewrite rev_involutive. now left.
        + rewrite Hc. rewrite Er at 1. rewrite rev_involutive. now left. }
    destruct Ha as [-> | [a' [c [-> Hc]]]]; [exact Hhere|].
    unfold split_ws. rewrite <- app_assoc. simpl.
    destruct (@split_ws_from_skip a' c (w ++ b) Hc []) as [l ->].
    apply in_or_app. right. exact Hhere.
Qed.

Lemma has_uppercase_name_iff (content : str) :
  has_uppercase_name U content = true <-> uppercase_token U content.
Proof.
  unfold has_uppercase_name, uppercase_token. rewrite existsb_exists.
  split; intros [w [Hw H]]; exists w.
  - apply andb_true_iff in H as [H1 H2]. apply Nat.ltb_lt in H2.
    split; [now apply split_ws_token | auto].
  - destruct H as [H1 H2]. split; [now apply split_ws_token|].
    apply andb_true_iff. split; auto. now apply Nat.ltb_lt.
Qed.

Lemma index_rule_iff (content : str) :
  any_in index_keywords (lower U content) = true <-> index_rule U content.
Proof. apply any_in_iff. Qed.

Lemma sustainability_rule_iff (content : str) :
  any_in sustainability_keywords (lower U content)
  && negb (any_in product_keywords (lower U content)) = true
  <-> sustainability_rule U content.
Proof.
  unfold sustainability_rule.
  rewrite andb_true_iff, negb_true_iff, any_in_iff, any_in_false_iff. tauto.
Qed.

Lemma certification_rule_iff (content : str) :
  any_in certification_keywords (lower U content)
  && negb (any_in product_keywords (lower U content)) = true
  <-> certification_rule U content.
Proof.
  unfold certification_rule.
  rewrite andb_true_iff, negb_true_iff, any_in_iff, any_in_false_iff. tauto.
Qed.

(** The score test, on its own. *)
Lemma two_of_three (a b c : bool) :
  (2 <=? Nat.b2n a + Nat.b2n b + Nat.b2n c) = true
  <-> (a = true /\ b = true) \/ (a = true /\ c = true) \/ (b = true /\ c = true).
Proof.
  destruct a, b, c; simpl; split; intros H; try reflexivity; try discriminate;
    try tauto;
    repeat match goal with
           | H : _ \/ _ |- _ => destruct H
           | H : _ /\ _ |- _ => destruct H
           end; discriminate.
Qed.

(** C5.  A chunk of fewer than 100 code points is rejected, whatever it
    contains. *)
Theorem short_chunk_rejected (content : str) :
  length content < 100 ->
  test_is_valid_product_chunk U content = false.
Proof.
  intros H. unfold test_is_valid_product_chunk.
  apply Nat.ltb_lt in H. now rewrite H.
Qed.

(** C6.  A chunk whose lowercased text contains ["table of contents"],
    ["index"], ["contents"] or ["signature book"] as a plain substring is
    rejected, whatever else it contains. *)
Theorem index_chunk_rejected (content : str) :
  mentions index_keywords (lower U content) ->
  test_is_valid_product_chunk U content = false.
Proof.
  intros H. apply any_in_iff in H. unfold test_is_valid_product_chunk.
  destruct (length content <? 100); [reflexivity|]. now rewrite H.
Qed.

(** C4.  A chunk of at least 100 code points that triggers none of the
    three exclusion rules is accepted exactly when at least two of the
    three indicators hold: (a) a whitespace-delimited token that is
    uppercase (in the sense of [str.isupper]) and longer than 2, (b) one of
    ["×"], ["x "], ["cm"], ["mm"] in the text, (c) a product-context
    keyword in the lowercased text. *)
Theorem accepted_iff_two_indicators (content : str) :
  100 <= length content ->
  ~ index_rule U content ->
  ~ sustainability_rule U content ->
  ~ certification_rule U content ->
  (test_is_valid_product_chunk U content = true
   <-> (uppercase_token U content /\ dimension_like content)
       \/ (uppercase_token U content /\ product_context U content)
       \/ (dimension_like content /\ product_context U content)).
Proof.
  intros Hlen Hidx Hsus Hcer.
  rewrite <- index_rule_iff in Hidx.
  rewrite <- sustainability_rule_iff in Hsus.
  rewrite <- certification_rule_iff in Hcer.
  apply not_true_is_false in Hidx, Hsus, Hcer.
  unfold test_is_valid_product_chunk.
  apply Nat.ltb_ge in Hlen. rewrite Hlen, Hidx, Hsus, Hcer.
  rewrite two_of_three, has_uppercase_name_iff.
  unfold has_dimensions, has_product_context, dimension_like, product_context.
  rewrite !any_in_iff. reflexivity.
Qed.

(** C7, as amended.  A chunk of at least 100 code points whose lowercased
    text contains none of the index keywords, and which contains
    ["sustainability"], ["designer"] and ["cm"], is accepted. *)
Theorem sustainability_with_signals_accepted (content : str) :
  100 <= length content ->
  ~ index_rule U content ->
  substring (u "sustainability") content ->
  substring (u "designer") content ->
  substring (u "cm") content ->
  test_is_valid_product_chunk U content = true.
Proof.
  intros Hlen Hidx _ Hdes Hcm.
  assert (Hd : substring (u "designer") (lower U content))
    by (apply lower_keeps; [reflexivity | assumption]).
  assert (Hprod : any_in product_keywords (lower U content) = true).
  { apply any_in_iff. exists (u "designer"). split; [|exact Hd].
    simpl. auto. }
  rewrite <- index_rule_iff in Hidx. apply not_true_is_false in Hidx.
  unfold test_is_valid_product_chunk.
  apply Nat.ltb_ge in Hlen. rewrite Hlen, Hidx, Hprod. simpl.
  rewrite !andb_false_r.
  apply two_of_three. right. right. split.
  - apply any_in_iff. exists (u "cm"). split; [simpl; auto | exact Hcm].
  - apply any_in_iff. exists (u "designer"). split; [simpl; auto | exact Hd].
Qed.

End Validator.

(** ** The matcher against the match relation *)

Section Semantics.

Variable U : ucd.

Local Abbreviation derives := (derives U).

Lemma rmatch_sound (A : Type) (r : regex) :
  forall (k : mstate -> option A) (st : mstate) (a : A),
    rmatch U r k st = Some a ->
    exists st', derives r st st' /\ k st' = Some a.
Proof.
  induction r as [|p|r1 IH1 r2 IH2|r1 IH1 r2 IH2|r IH|n r IH| | |];
    intros k st a H; simpl in H.
  - exists st. split; [constructor | exact H].
  - destruct (after st) as [|c s] eqn:E; [discriminate|].
    destruct (p c) eqn:Hp; [|discriminate].
    eexists. split; [apply d_chr; eassumption | exact H].
  - apply IH1 in H as [st1 [D1 H]]. apply IH2 in H as [st2 [D2 H]].
    exists st2. split; [econstructor; eassumption | exact H].
  - destruct (rmatch U r1 k st) eqn:E.
    + injection H as <-. apply IH1 in E as [st' [D E]].
      exists st'. split; [apply d_alt_l; exact D | exact E].
    + apply IH2 in H as [st' [D H]].
      exists st'. split; [apply d_alt_r; exact D | exact H].
  - revert H. generalize (length (after st)) as n. intros n. revert st.
    induction n as [|n IHn]; intros st H; simpl in H.
    + exists st. split; [constructor | exact H].
    + match type of H with
      | match ?X with _ => _ end = _ => destruct X eqn:E
      end.
      * injection H as <-. apply IH in E as [st1 [D1 E]].
        destruct (length (after st1) <? length (after st)) eqn:L; [|discriminate].
        apply Nat.ltb_lt in L. apply IHn in E as [st2 [D2 E]].
        exists st2. split; [eapply d_star_step; eassumption | exact E].
      * exists st. split; [constructor | exact H].
  - apply IH in H as [st' [D H]].
    eexists. split; [apply d_cap; exact D | exact H].
  - destruct (before st) eqn:E; [|discriminate].
    exists st. split; [apply d_bol; exact E | exact H].
  - destruct (after st) as [|c [|d s]] eqn:E; try discriminate.
    + exists st. split; [apply d_eol; auto | exact H].
    + destruct (c =? NL)%N eqn:Hc; [|discriminate]. apply N.eqb_eq in Hc.
      subst c. exists st. split; [apply d_eol; auto | exact H].
  - destruct (xorb (word_behind U st) (word_ahead U st)) eqn:E; [|discriminate].
    exists st. split; [apply d_wordb; exact E | exact H].
Qed.

(** Conversely, the matcher finds a match whenever there is one (not
    necessarily the same: it returns the first in its order of
    preference). *)
Lemma star_loop_complete (A : Type) (r : regex) (k : mstate -> option A) :
  (forall k' st st' (a : A), derives r st st' -> k' st' = Some a ->
     exists a', rmatch U r k' st = Some a') ->
  forall st st', derives (Star r) st st' ->
    forall n (a : A), length (after st) <= n -> k st' = Some a ->
      exists a', star_loop (rmatch U r) k n st = Some a'.
Proof.
  intros IH st st' D. remember (Star r) as sr eqn:Hsr.
  induction D as [| | | | |r0 st|r0 st st1 st2 D1 _ L D2 IHD2| | | |];
    try discriminate; injection Hsr as ->; intros n a Hn Hk.
  - destruct n as [|n]; simpl; [eauto|].
    destruct (rmatch U r _ st); eauto.
  - destruct n as [|n]; [lia|]. simpl.
    destruct (IHD2 eq_refl n a) as [a1 H1]; [lia | exact Hk |].
    destruct (IH (fun st' =>
                    if length (after st') <? length (after st)
                    then star_loop (rmatch U r) k n st' else None)
                 st st1 a1 D1) as [a2 H2].
    + apply Nat.ltb_lt in L. now rewrite L.
    + rewrite H2. eauto.
Qed.

Lemma rmatch_complete (A : Type) (r : regex) :
  forall (k : mstate -> option A) (st st' : mstate) (a : A),
    derives r st st' -> k st' = Some a ->
    exists a', rmatch U r k st = Some a'.
Proof.
  induction r as [|p|r1 IH1 r2 IH2|r1 IH1 r2 IH2|r IH|n r IH| | |];
    intros k st st' a D Hk.
  - inversion D; subst. simpl. eauto.
  - inversion D as [|p0 st0 c s E Hp| | | | | | | | |]; subst. simpl.
    rewrite E, Hp. eauto.
  - inversion D as [| |r1' r2' st0 st1 st2 D1 D2| | | | | | | |]; subst. simpl.
    destruct (IH2 k st1 st' a D2 Hk) as [a2 H2].
    exact (IH1 (rmatch U r2 k) st st1 a2 D1 H2).
  - simpl. destruct (rmatch U r1 k st) as [a1|] eqn:E; [eauto|].
    inversion D as [| | |r1' r2' st0 st0' D1|r1' r2' st0 st0' D2| | | | | |]; subst.
    + destruct (IH1 k st st' a D1 Hk) as [a1 H1]. congruence.
    + exact (IH2 k st st' a D2 Hk).
  - simpl. apply (star_loop_complete k IH D (n := length (after st)) (a := a));
      [lia | exact Hk].
  - inversion D as [| | | | | | |n0 r0 st0 st1 D1| | |]; subst. simpl.
    exact (IH (fun st' => k (capture n st st')) st st1 a D1 Hk).
  - inversion D as [| | | | | | | |st0 E| |]; subst. simpl. rewrite E. eauto.
  - inversion D as [| | | | | | | | |st0 E|]; subst. simpl.
    destruct E as [E | E]; rewrite E; simpl; eauto.
  - inversion D as [| | | | | | | | | |st0 E]; subst. simpl. rewrite E. eauto.
Qed.

(** A match only moves text from ahead of the position to behind it. *)
Lemma derives_frame (r : regex) (st st' : mstate) :
  derives r st st' ->
  exists w, after st = w ++ after st' /\ before st' = rev w ++ before st.
Proof.
  induction 1.
  - exists []. auto.
  - exists [c]. simpl. auto.
  - destruct IHderives1 as [w1 [A1 B1]]. destruct IHderives2 as [w2 [A2 B2]].
    exists (w1 ++ w2). rewrite A1, A2, B2, B1, rev_app_distr, <- !app_assoc. auto.
  - assumption.
  - assumption.
  - exists []. auto.
  - destruct IHderives1 as [w1 [A1 B1]]. destruct IHderives2 as [w2 [A2 B2]].
    exists (w1 ++ w2). rewrite A1, A2, B2, B1, rev_app_distr, <- !app_assoc. auto.
  - exact IHderives.
  - exists []. auto.
  - exists []. auto.
  - exists []. auto.
Qed.

(** The text of a group is the text its sub-pattern went over. *)
Lemma derives_cap (n : nat) (r : regex) (st st' : mstate) :
  derives (Cap n r) st st' ->
  exists st1, derives r st st1 /\ st' = capture n st st1
              /\ after st = group n st' ++ after st'.
Proof.
  intros H. inversion H as [| | | | | | | n0 r0 s0 s1 D | | |]; subst.
  exists s1. split; [assumption|]. split; [reflexivity|].
  destruct (derives_frame D) as [w [A B]].
  unfold group, capture, consumed. simpl. rewrite Nat.eqb_refl.
  rewrite B, length_app, length_rev, Nat.add_sub.
  rewrite <- (length_rev w) at 1. rewrite firstn_app, Nat.sub_diag, firstn_all.
  simpl. rewrite app_nil_r, rev_involutive. exact A.
Qed.

(** Every result of [findall]'s scan is a match of the pattern at some
    position of the text. *)
Lemma scan_sound (r : regex) (s : str) :
  forall skip pre st,
    In st (scan U r skip pre s) ->
    exists a b, s = a ++ b /\ derives r (at_pos (rev a ++ pre) b) st.
Proof.
  induction s as [|c s IH]; intros skip pre st H; simpl in H.
  - destruct skip; [|destruct H].
    destruct (rmatch U r (@Some mstate) (at_pos pre [])) eqn:E; [|destruct H].
    destruct H as [<- | []].
    apply rmatch_sound in E as [st' [D E]]. injection E as ->.
    exists [], []. auto.
  - assert (Hrest : forall k, In st (scan U r k (c :: pre) s) ->
              exists a b, c :: s = a ++ b /\ derives r (at_pos (rev a ++ pre) b) st).
    { intros k Hk. apply IH in Hk as [a [b [-> D]]].
      exists (c :: a), b. simpl. rewrite <- app_assoc. auto. }
    destruct skip.
    + destruct (rmatch U r (@Some mstate) (at_pos pre (c :: s))) eqn:E.
      * destruct H as [<- | H]; [|eapply Hrest; exact H].
        apply rmatch_sound in E as [st' [D E]]. injection E as ->.
        exists [], (c :: s). auto.
      * eapply Hrest; exact H.
    + eapply Hrest; exact H.
Qed.

End Semantics.

(** ** Lines of the specification's shape pass the standalone test *)

Section StandaloneShape.

Variable U : ucd.

Local Abbreviation mk := Build_mstate.

Lemma derives_chr_step (p : codepoint -> bool) (c : codepoint)
    (pre s : str) (g : list (nat * str)) :
  p c = true -> derives U (Chr p) (mk pre (c :: s) g) (mk (c :: pre) s g).
Proof.
  intros H. exact (d_chr U p (mk pre (c :: s) g) (eq_refl (c :: s)) H).
Qed.

Lemma derives_star_run (p : codepoint -> bool) (w : str) :
  forallb p w = true ->
  forall pre z g,
    derives U (Star (Chr p)) (mk pre (w ++ z) g) (mk (rev w ++ pre) z g).
Proof.
  induction w as [|c w IH]; intros H pre z g.
  - apply d_star_stop.
  - simpl in H. apply andb_true_iff in H as [Hc Hw].
    apply d_star_step with (st1 := mk (c :: pre) (w ++ z) g).
    + apply derives_chr_step. exact Hc.
    + simpl. lia.
    + simpl. rewrite <- app_assoc. apply IH. exact Hw.
Qed.

Lemma derives_at_least (p : codepoint -> bool) (n : nat) :
  forall w, n <= length w -> forallb p w = true ->
    forall pre z g,
      derives U (AtLeast n (Chr p)) (mk pre (w ++ z) g) (mk (rev w ++ pre) z g).
Proof.
  induction n as [|n IH]; intros w Hn Hw pre z g.
  - apply derives_star_run. exact Hw.
  - destruct w as [|c w]; [simpl in Hn; lia|].
    simpl in Hw. apply andb_true_iff in Hw as [Hc Hw].
    simpl. apply d_seq with (st1 := mk (c :: pre) (w ++ z) g).
    + apply derives_chr_step. exact Hc.
    + rewrite <- app_assoc. apply IH; [simpl in Hn; lia | exact Hw].
Qed.

Lemma join_tail_text (t : str) (tokens : list str) :
  join [SPACE] (t :: tokens) = t ++ tail_text tokens.
Proof.
  revert t; induction tokens as [|t' tokens IH]; intros t.
  - simpl. now rewrite app_nil_r.
  - change (join [SPACE] (t :: t' :: tokens))
      with (t ++ [SPACE] ++ join [SPACE] (t' :: tokens)).
    rewrite IH. reflexivity.
Qed.

Lemma split_from_join (sep : codepoint) (s : str) :
  forall cur, join [sep] (split_from sep cur s) = rev cur ++ s.
Proof.
  induction s as [|c s IH]; intros cur.
  - simpl. now rewrite app_nil_r.
  - simpl. destruct (c =? sep)%N eqn:E.
    + apply N.eqb_eq in E. subst c.
      specialize (IH []). simpl in IH.
      destruct (split_from sep [] s) as [|x l] eqn:Hs.
      * destruct s; simpl in Hs; [discriminate|].
        destruct (_ =? _)%N in Hs; discriminate.
      * change (join [sep] (rev cur :: x :: l))
          with (rev cur ++ [sep] ++ join [sep] (x :: l)).
        now rewrite IH.
    + rewrite IH. simpl. now rewrite <- app_assoc.
Qed.

Lemma derives_tail (tokens : list str) :
  forallb upper_token tokens = true ->
  forall pre z g,
    derives U (Star (Plus (Chr (re_space U)) ;; AtLeast 2 (Chr AZ)))
      (mk pre (tail_text tokens ++ z) g)
      (mk (rev (tail_text tokens) ++ pre) z g).
Proof.
  induction tokens as [|t tokens IH]; intros H pre z g.
  - apply d_star_stop.
  - simpl in H. apply andb_true_iff in H as [Ht Hrest].
    unfold upper_token in Ht. apply andb_true_iff in Ht as [Hlen Hall].
    apply Nat.leb_le in Hlen.
    change (tail_text (t :: tokens)) with ((SPACE :: t) ++ tail_text tokens).
    apply d_star_step
      with (st1 := mk (rev t ++ SPACE :: pre) (tail_text tokens ++ z) g).
    + apply d_seq with (st1 := mk (SPACE :: pre) (t ++ tail_text tokens ++ z) g).
      * unfold Plus.
        apply d_seq with (st1 := mk (SPACE :: pre) (t ++ tail_text tokens ++ z) g).
        -- rewrite <- app_assoc. apply derives_chr_step. reflexivity.
        -- apply d_star_stop.
      * apply derives_at_least; assumption.
    + simpl. rewrite !length_app. simpl. lia.
    + rewrite rev_app_distr, <- app_assoc.
      replace (rev (SPACE :: t) ++ pre) with (rev t ++ SPACE :: pre)
        by (simpl; now rewrite <- app_assoc).
      apply IH. exact Hrest.
Qed.

(** Every line of the specification's shape passes the test of the code;
    the pattern of the code also takes runs of any whitespace between the
    tokens. *)
Lemma single_spaced_standalone (line : str) :
  single_spaced_upper line = true -> standalone U line = true.
Proof.
  unfold single_spaced_upper, standalone, re_match.
  intros H. apply andb_true_iff in H as [Htok Hlen].
  assert (Hj : join [SPACE] (split SPACE line) = line)
    by (unfold split; now rewrite split_from_join).
  destruct (split SPACE line) as [|t tokens] eqn:Hs.
  { unfold split in Hs. destruct line; simpl in Hs; [discriminate|].
    destruct (_ =? _)%N in Hs; discriminate. }
  rewrite join_tail_text in Hj.
  simpl in Htok. apply andb_true_iff in Htok as [Ht Hrest].
  unfold upper_token in Ht. apply andb_true_iff in Ht as [Ht2 Hall].
  apply Nat.leb_le in Ht2.
  assert (D : derives U (standalone_pattern U) (at_pos [] line)
                (mk (rev line) [] [])).
  { rewrite <- Hj. unfold standalone_pattern, at_pos.
    apply d_seq with (st1 := mk [] (t ++ tail_text tokens) []);
      [apply d_bol; reflexivity|].
    apply d_seq with (st1 := mk (rev t) (tail_text tokens) []).
    - replace (rev t) with (rev t ++ []) by apply app_nil_r.
      apply derives_at_least; assumption.
    - apply d_seq with (st1 := mk (rev (t ++ tail_text tokens)) [] []);
        [|apply d_eol; left; reflexivity].
      rewrite rev_app_distr.
      replace (tail_text tokens) with (tail_text tokens ++ []) at 1
        by apply app_nil_r.
      apply derives_tail. exact Hrest. }
  destruct (rmatch_complete (@Some mstate) D eq_refl) as [st' ->].
  exact Hlen.
Qed.

End StandaloneShape.

(** ** The name extractor *)

Section NameExtractor.

Variable U : ucd.

Lemma lstrip_head (s : str) (c : codepoint) (t : str) :
  lstrip U s = c :: t -> cp_isspace U c = false.
Proof.
  induction s as [|x s IH]; simpl; [discriminate|].
  destruct (cp_isspace U x) eqn:E; [exact IH|].
  intros H. injection H as <- _. exact E.
Qed.

Lemma lstrip_snoc (s : str) (c : codepoint) :
  cp_isspace U c = false -> lstrip U (s ++ [c]) = lstrip U s ++ [c].
Proof.
  intros Hc. induction s as [|x s IH]; simpl.
  - now rewrite Hc.
  - destruct (cp_isspace U x); [exact IH | reflexivity].
Qed.

Lemma lstrip_idempotent (s : str) : lstrip U (lstrip U s) = lstrip U s.
Proof.
  destruct (lstrip U s) as [|c t] eqn:E; [reflexivity|].
  apply lstrip_head in E. simpl. now rewrite E.
Qed.

Lemma rstrip_cons (c : codepoint) (s : str) :
  cp_isspace U c = false -> rstrip U (c :: s) = c :: rstrip U s.
Proof.
  intros Hc. unfold rstrip. simpl.
  rewrite lstrip_snoc by assumption. rewrite rev_app_distr. reflexivity.
Qed.

Lemma rstrip_idempotent (s : str) : rstrip U (rstrip U s) = rstrip U s.
Proof.
  unfold rstrip. now rewrite rev_involutive, lstrip_idempotent.
Qed.

(** [line.strip().strip()] is [line.strip()]. *)
Lemma strip_idempotent (s : str) : strip U (strip U s) = strip U s.
Proof.
  unfold strip. destruct (lstrip U s) as [|c t] eqn:E; [reflexivity|].
  apply lstrip_head in E.
  rewrite rstrip_cons by assumption. simpl. rewrite E.
  rewrite rstrip_cons by assumption. now rewrite rstrip_idempotent.
Qed.



Lemma index_found (x : str) (l : list str) :
  In x l -> exists i, index x l = Some i.
Proof.
  induction l as [|y l IH]; intros H; [destruct H|]. simpl.
  unfold str_eqb. destruct (str_eq_dec y x) as [E | N]; [eauto|].
  destruct H as [H | H]; [contradiction|].
  destruct (IH H) as [i ->]. simpl. eauto.
Qed.

(** The extractor raises only when a trimmed line is not itself a line of
    the chunk: on chunks whose first 10 lines carry no blank at either end
    it returns. *)
Lemma name_loop_returns (lines todo : list str) :
  (forall raw, In raw todo -> In (strip U raw) lines) ->
  exists r, name_loop U lines todo = Return r.
Proof.
  induction todo as [|raw todo IH]; intros H; simpl; [eauto|].
  destruct (standalone U (strip U raw)); [eauto|].
  unfold embedded.
  destruct (re_search U (uppercase_pattern U) (strip U raw)); [|apply IH; auto with datatypes].
  destruct (index_found (strip U raw) lines) as [i ->]; [apply H; now left|].
  destruct (any_in _ _); [eauto|]. apply IH. auto with datatypes.
Qed.

Lemma in_firstn (A : Type) (n : nat) :
  forall (l : list A) (x : A), In x (firstn n l) -> In x l.
Proof.
  induction n as [|n IH]; intros l x H; [destruct H|].
  destruct l as [|y l]; [destruct H|].
  destruct H as [H | H]; [now left | right; now apply IH].
Qed.

Lemma trimmed_lines_no_raise (content : str) :
  (forall raw, In raw (firstn 10 (split NL content)) -> strip U raw = raw) ->
  exists r, test_extract_product_name U content = Return r.
Proof.
  intros H. apply name_loop_returns. intros raw Hraw.
  rewrite (H raw Hraw). eapply in_firstn. exact Hraw.
Qed.








End NameExtractor.

(** ** The metadata extractor *)

Section Metadata.

Variable U : ucd.

Lemma derives_seq_inv (r1 r2 : regex) (st st2 : mstate) :
  derives U (Seq r1 r2) st st2 ->
  exists st1, derives U r1 st st1 /\ derives U r2 st1 st2.
Proof.
  intros H. inversion H; subst. eauto.
Qed.

Lemma derives_wordb_inv (st st' : mstate) :
  derives U Wordb st st' ->
  st' = st /\ xorb (word_behind U st) (word_ahead U st) = true.
Proof.
  intros H. inversion H; subst. auto.
Qed.

Lemma derives_chr_inv (p : codepoint -> bool) (st st' : mstate) :
  derives U (Chr p) st st' ->
  exists c, p c = true /\ after st = c :: after st'
            /\ before st' = c :: before st /\ groups st' = groups st.
Proof.
  intros H. inversion H; subst. exists c. simpl. auto.
Qed.

(** A literal goes over exactly its own text. *)
Lemma derives_lit (s : str) :
  forall st st', derives U (Lit s) st st' ->
    after st = s ++ after st' /\ before st' = rev s ++ before st.
Proof.
  induction s as [|c s IH]; intros st st' H.
  - inversion H; subst. auto.
  - destruct s as [|d s].
    + apply derives_chr_inv in H as [x [Hx [A [B _]]]].
      apply N.eqb_eq in Hx. subst x. auto.
    + change (Lit (c :: d :: s)) with (Seq (Chr (ch c)) (Lit (d :: s))) in H.
      apply derives_seq_inv in H as [st1 [H1 H2]].
      apply derives_chr_inv in H1 as [x [Hx [A [B _]]]].
      apply N.eqb_eq in Hx. subst x.
      apply IH in H2 as [A2 B2]. rewrite A, A2, B2, B. split; [reflexivity|].
      change (rev (c :: d :: s)) with (rev (d :: s) ++ [c]).
      now rewrite <- app_assoc.
Qed.

(** An alternation of literals goes over one of them. *)
Lemma derives_one_of (names : list str) :
  names <> [] ->
  forall st st', derives U (OneOf (map Lit names)) st st' ->
    exists name, In name names /\ derives U (Lit name) st st'.
Proof.
  induction names as [|n names IH]; intros Hne st st' H; [congruence|].
  destruct names as [|m names].
  - exists n. simpl. auto.
  - change (OneOf (map Lit (n :: m :: names)))
      with (Alt (Lit n) (OneOf (map Lit (m :: names)))) in H.
    inversion H; subst.
    + exists n. simpl. auto.
    + destruct (IH ltac:(discriminate) st st') as [x [Hx D]]; [assumption|].
      exists x. split; [right; exact Hx | exact D].
Qed.

Lemma AZ_word (c : codepoint) : AZ c = true -> re_word U c = true.
Proof.
  unfold AZ, re_word, cp_isalnum, tabulated, tab_isalnum, in_range.
  intros H. apply andb_true_iff in H as [H1 H2].
  apply N.leb_le in H1, H2.
  assert (Ht : (c <? 0x100)%N = true) by (apply N.ltb_lt; lia).
  rewrite Ht. simpl.
  assert (H3 : (0x41 <=? c)%N = true) by (apply N.leb_le; lia).
  assert (H4 : (c <=? 0x5A)%N = true) by (apply N.leb_le; lia).
  rewrite H3, H4. simpl. now rewrite orb_true_r.
Qed.

(** Every colour name starts and ends with a letter of [A-Z]. *)
Lemma color_names_edges (name : str) :
  In name color_names ->
  exists c t c' t', name = c :: t /\ rev name = c' :: t'
                    /\ AZ c = true /\ AZ c' = true.
Proof.
  intros H. vm_compute in H.
  repeat (destruct H as [<- | H];
          [do 4 eexists; repeat split; reflexivity|]).
  destruct H.
Qed.

(** What a match of the colour pattern captures: one of the colour names,
    standing as a whole word. *)
Lemma color_match (content : str) (st : mstate) :
  matches_in U color_pattern content st ->
  In (group 1 st) color_names /\ whole_word U (group 1 st) content.
Proof.
  intros [a [b [-> D]]]. unfold color_pattern in D.
  apply derives_seq_inv in D as [st1 [D1 D]].
  apply derives_seq_inv in D as [st2 [D2 D3]].
  apply derives_wordb_inv in D1 as [-> W1].
  apply derives_wordb_inv in D3 as [-> W3].
  apply derives_cap in D2 as [st3 [D2 [-> G]]].
  apply (derives_one_of (names := color_names)) in D2 as [name [Hname D2]];
    [|discriminate].
  apply derives_lit in D2 as [A B].
  change (after (capture 1 (at_pos (rev a) b) st3)) with (after st3) in G.
  rewrite A in G. apply app_inv_tail in G. rewrite <- G. clear G.
  split; [exact Hname|].
  change (after (at_pos (rev a) b)) with b in A.
  change (before (at_pos (rev a) b)) with (rev a) in B.
  exists a, (after st3). split; [now rewrite A|].
  unfold word_behind, word_ahead in W1, W3.
  change (before (at_pos (rev a) b)) with (rev a) in W1.
  change (after (at_pos (rev a) b)) with b in W1.
  change (before (capture 1 (at_pos (rev a) b) st3)) with (before st3) in W3.
  change (after (capture 1 (at_pos (rev a) b) st3)) with (after st3) in W3.
  rewrite A in W1. rewrite B in W3. clear A B.
  destruct (color_names_edges Hname) as [c [t [c' [t' [E [E' [Hc Hc']]]]]]].
  rewrite E in W1. rewrite E' in W3. simpl in W1, W3.
  rewrite AZ_word in W1 by exact Hc. rewrite AZ_word in W3 by exact Hc'.
  unfold no_word_first. split.
  - destruct (rev a) as [|x ?]; [exact I | now destruct (re_word U x)].
  - destruct (after st3) as [|x ?]; [exact I | now destruct (re_word U x)].
Qed.

Lemma scan_matches (r : regex) (content : str) (st : mstate) :
  In st (scan U r 0 [] content) -> matches_in U r content st.
Proof.
  intros H. apply scan_sound in H as [a [b [E D]]].
  rewrite app_nil_r in D. exists a, b. auto.
Qed.

Lemma first_is_match (r : regex) (content : str) (st : mstate) :
  first_match U r content st -> matches_in U r content st.
Proof.
  intros [rest E]. apply scan_matches. rewrite E. now left.
Qed.

Lemma extract_dimensions_some (content d : str) :
  extract_dimensions U (dimension_patterns U) content = Some d ->
  exists st, first_match U (dimension_pattern U) content st
             /\ d = group 1 st ++ u "×" ++ group 2 st.
Proof.
  unfold dimension_patterns, extract_dimensions, findall2, first_match.
  destruct (scan U (dimension_pattern U) 0 [] content) as [|st rest] eqn:E;
    simpl; [discriminate|].
  intros H. injection H as <-. exists st. split; [|reflexivity].
  exists rest. reflexivity.
Qed.

Lemma extract_designer_some (patterns : list regex) (content d : str) :
  extract_designer U patterns content = Some d ->
  2 < length d
  /\ exists r st, In r patterns /\ first_match U r content st
                  /\ d = strip U (group 1 st).
Proof.
  induction patterns as [|r patterns IH]; simpl; [discriminate|].
  unfold findall1.
  destruct (scan U r 0 [] content) as [|st rest] eqn:E; simpl.
  - intros H. destruct (IH H) as [L [r' [st' [Hr H']]]].
    split; [exact L|]. exists r', st'. auto.
  - destruct (2 <? length (strip U (group 1 st))) eqn:L.
    + intros H. injection H as <-. apply Nat.ltb_lt in L. split; [exact L|].
      exists r, st. split; [now left|]. split; [|reflexivity].
      exists rest. exact E.
    + intros H. destruct (IH H) as [L' [r' [st' [Hr H']]]].
      split; [exact L'|]. exists r', st'. auto.
Qed.

Lemma collect_colors_in (content c : str) :
  In c (collect_colors U color_patterns content) ->
  In c color_names /\ whole_word U c content.
Proof.
  unfold collect_colors, color_patterns, findall1. simpl. rewrite app_nil_r.
  intros H. apply in_map_iff in H as [st [<- H]].
  apply color_match. apply scan_matches. exact H.
Qed.

(** C10.  The record has no trivial field: [dimensions] is present only
    with a match of the dimension pattern and is then the two numbers of
    the first match around ["×"]; a present [designer] is the trimmed first
    match of one of the designer patterns and is longer than 2; a present
    [colors] is a non-empty list without repetition of allowlisted colour
    names, each standing in the text as a whole word. *)
Theorem metadata_fields_not_trivial (content : str) :
  let m := test_extract_product_metadata U content in
  (forall d, dimensions m = Some d ->
     d <> []
     /\ exists st, first_match U (dimension_pattern U) content st
                   /\ matches_in U (dimension_pattern U) content st
                   /\ d = group 1 st ++ u "×" ++ group 2 st)
  /\ (forall d, designer m = Some d ->
        2 < length d
        /\ exists r st, In r (designer_patterns U)
                        /\ first_match U r content st
                        /\ matches_in U r content st
                        /\ d = strip U (group 1 st))
  /\ (forall cs, colors m = Some cs ->
        cs <> [] /\ NoDup cs
        /\ forall c, In c cs -> In c color_names /\ whole_word U c content).
Proof.
  intros m. subst m. unfold test_extract_product_metadata.
  cbn [dimensions designer colors].
  split; [|split].
  - intros d H. apply extract_dimensions_some in H as [st [M ->]].
    split.
    + intros E. apply app_eq_nil in E as [_ E]. discriminate.
    + exists st. split; [exact M|]. split; [|reflexivity].
      now apply first_is_match.
  - intros d H. apply extract_designer_some in H as [L [r [st [Hr [M E]]]]].
    split; [exact L|]. exists r, st.
    split; [exact Hr|]. split; [exact M|]. split; [|exact E].
    now apply first_is_match.
  - intros cs H.
    destruct (collect_colors U color_patterns content) as [|c0 rest] eqn:E;
      [discriminate|].
    assert (Hcs : cs = list_set (collect_colors U color_patterns content))
      by (rewrite E; congruence).
    clear H. subst cs. unfold list_set. split; [|split].
    + intros N.
      assert (Hin : In c0 (nodup str_eq_dec
                             (collect_colors U color_patterns content))).
      { apply nodup_In. rewrite E. now left. }
      rewrite N in Hin. destruct Hin.
    + apply NoDup_nodup.
    + intros c Hc. apply nodup_In in Hc. now apply collect_colors_in.
Qed.

End Metadata.

(** ** The sample chunks and other concrete inputs *)

(** C1.  On the VALENOVA sample the validator accepts and the metadata
    extractor finds dimensions ["11,8×11,8"], designer ["Stacy Garcia NY"]
    and the colour ["TAUPE"]; the name extractor returns
    ["VALENOVA TAUPE"], the whole uppercase run of the first line, where the
    sample expects ["VALENOVA"]. *)
Theorem valenova_sample (U : ucd) :
  test_is_valid_product_chunk U valenova_chunk = true
  /\ test_extract_product_name U valenova_chunk
     = Return (Some (u "VALENOVA TAUPE"))
  /\ test_extract_product_name U valenova_chunk
     <> Return (Some (u "VALENOVA"))
  /\ dimensions (test_extract_product_metadata U valenova_chunk)
     = Some (u "11,8×11,8")
  /\ designer (test_extract_product_metadata U valenova_chunk)
     = Some (u "Stacy Garcia NY")
  /\ exists cs, colors (test_extract_product_metadata U valenova_chunk) = Some cs
                /\ In (u "TAUPE") cs.
Proof.
  assert (Hname : test_extract_product_name U valenova_chunk
                  = Return (Some (u "VALENOVA TAUPE")))
    by (vm_compute; reflexivity).
  split; [vm_compute; reflexivity|].
  split; [exact Hname|].
  split; [rewrite Hname; intros H; discriminate H|].
  split; [vm_compute; reflexivity|].
  split; [vm_compute; reflexivity|].
  eexists. split; [vm_compute; reflexivity|].
  left. reflexivity.
Qed.

(** C2.  The name extractor is not total: on an indented line holding an
    uppercase run, [lines.index(line)] looks for the trimmed line among the
    untrimmed ones and raises [ValueError]. *)
Theorem name_extractor_raises (U : ucd) :
  test_extract_product_name U indented_line = Raise ValueError.
Proof.
  unfold indented_line. vm_compute. reflexivity.
Qed.

(** C3.  On the PIQUÉ sample the name extractor returns ["HARMONY"] (the
    line ["PIQUÉ"] is not in [[A-Z]] throughout) and the designer is the
    run after ["by "] up to the first code point outside the class, which
    takes in the blank lines and ["PIQU"]. *)
Theorem pique_sample (U : ucd) :
  test_extract_product_name U pique_chunk = Return (Some (u "HARMONY"))
  /\ designer (test_extract_product_metadata U pique_chunk)
     = Some (u "Estudi{H}ac" ++ [NL; NL; NL] ++ u "PIQU").
Proof.
  split; vm_compute; reflexivity.
Qed.

(** C9.  ["20x20 cm"] and ["20×20 cm"] get the same dimensions, ["20×20"];
    in general the field is made of the two numbers of the first match,
    put around ["×"], whatever separator and unit the text has. *)
Theorem dimension_separator_normalised (U : ucd) :
  dimensions (test_extract_product_metadata U (u "20x20 cm")) = Some (u "20×20")
  /\ dimensions (test_extract_product_metadata U (u "20×20 cm")) = Some (u "20×20")
  /\ forall content,
       dimensions (test_extract_product_metadata U content)
       = match findall2 U (dimension_pattern U) content with
         | (a, b) :: _ => Some (a ++ u "×" ++ b)
         | [] => None
         end.
Proof.
  split; [vm_compute; reflexivity|].
  split; [vm_compute; reflexivity|].
  intros content. unfold test_extract_product_metadata.
  cbn [dimensions]. unfold dimension_patterns, extract_dimensions.
  destruct (findall2 U (dimension_pattern U) content) as [|[a b] rest];
    reflexivity.
Qed.

(** C7 as stated fails: a chunk with the three keywords is rejected when it
    is shorter than 100 code points, and when it contains an index
    keyword. *)
Lemma sustainability_counterexample :
  (substring (u "sustainability") short_sustainability_chunk
   /\ substring (u "designer") short_sustainability_chunk
   /\ substring (u "cm") short_sustainability_chunk
   /\ test_is_valid_product_chunk ucd_symbols short_sustainability_chunk = false)
  /\ (substring (u "sustainability") indexed_sustainability_chunk
      /\ substring (u "designer") indexed_sustainability_chunk
      /\ substring (u "cm") indexed_sustainability_chunk
      /\ 100 <= length indexed_sustainability_chunk
      /\ test_is_valid_product_chunk ucd_symbols indexed_sustainability_chunk = false).
Proof.
  repeat split; try (apply str_in_iff; vm_compute; reflexivity);
    try (vm_compute; reflexivity).
  vm_compute. lia.
Qed.


(** ** Instances of the conditional statements *)

Lemma short_chunk_rejected_witness :
  length (u "by Stacy Garcia NY") < 100
  /\ test_is_valid_product_chunk ucd_symbols (u "by Stacy Garcia NY") = false.
Proof.
  assert (H : length (u "by Stacy Garcia NY") < 100) by (vm_compute; lia).
  split; [exact H|].
  exact (@short_chunk_rejected ucd_symbols (u "by Stacy Garcia NY") H).
Defined.

Lemma index_chunk_rejected_witness :
  mentions index_keywords (lower ucd_symbols indexed_sustainability_chunk)
  /\ test_is_valid_product_chunk ucd_symbols indexed_sustainability_chunk = false.
Proof.
  assert (H : mentions index_keywords
                (lower ucd_symbols indexed_sustainability_chunk))
    by (apply any_in_iff; vm_compute; reflexivity).
  split; [exact H|].
  exact (@index_chunk_rejected ucd_symbols indexed_sustainability_chunk H).
Defined.

Lemma accepted_iff_two_indicators_witness :
  100 <= length valenova_chunk
  /\ ~ index_rule ucd_symbols valenova_chunk
  /\ ~ sustainability_rule ucd_symbols valenova_chunk
  /\ ~ certification_rule ucd_symbols valenova_chunk
  /\ (test_is_valid_product_chunk ucd_symbols valenova_chunk = true
      <-> (uppercase_token ucd_symbols valenova_chunk
           /\ dimension_like valenova_chunk)
          \/ (uppercase_token ucd_symbols valenova_chunk
              /\ product_context ucd_symbols valenova_chunk)
          \/ (dimension_like valenova_chunk
              /\ product_context ucd_symbols valenova_chunk)).
Proof.
  assert (H1 : 100 <= length valenova_chunk) by (vm_compute; lia).
  assert (H2 : ~ index_rule ucd_symbols valenova_chunk).
  { rewrite <- index_rule_iff. vm_compute. intros H. discriminate H. }
  assert (H3 : ~ sustainability_rule ucd_symbols valenova_chunk).
  { rewrite <- sustainability_rule_iff. vm_compute. intros H. discriminate H. }
  assert (H4 : ~ certification_rule ucd_symbols valenova_chunk).
  { rewrite <- certification_rule_iff. vm_compute. intros H. discriminate H. }
  repeat (split; [assumption|]).
  exact (@accepted_iff_two_indicators ucd_symbols valenova_chunk H1 H2 H3 H4).
Defined.

Lemma sustainability_with_signals_accepted_witness :
  100 <= length long_sustainability_chunk
  /\ ~ index_rule ucd_symbols long_sustainability_chunk
  /\ substring (u "sustainability") long_sustainability_chunk
  /\ substring (u "designer") long_sustainability_chunk
  /\ substring (u "cm") long_sustainability_chunk
  /\ test_is_valid_product_chunk ucd_symbols long_sustainability_chunk = true.
Proof.
  assert (H1 : 100 <= length long_sustainability_chunk) by (vm_compute; lia).
  assert (H2 : ~ index_rule ucd_symbols long_sustainability_chunk).
  { rewrite <- index_rule_iff. vm_compute. intros H. discriminate H. }
  assert (H3 : substring (u "sustainability") long_sustainability_chunk)
    by (apply str_in_iff; vm_compute; reflexivity).
  assert (H4 : substring (u "designer") long_sustainability_chunk)
    by (apply str_in_iff; vm_compute; reflexivity).
  assert (H5 : substring (u "cm") long_sustainability_chunk)
    by (apply str_in_iff; vm_compute; reflexivity).
  repeat (split; [assumption|]).
  exact (@sustainability_with_signals_accepted ucd_symbols
           long_sustainability_chunk H1 H2 H3 H4 H5).
Defined.


Lemma metadata_fields_not_trivial_witness :
  dimensions (test_extract_product_metadata ucd_symbols valenova_chunk)
  = Some (u "11,8×11,8")
  /\ designer (test_extract_product_metadata ucd_symbols valenova_chunk)
     = Some (u "Stacy Garcia NY")
  /\ colors (test_extract_product_metadata ucd_symbols valenova_chunk)
     <> None
  /\ ((forall d,
         dimensions (test_extract_product_metadata ucd_symbols valenova_chunk)
         = Some d ->
         d <> []
         /\ exists st,
             first_match ucd_symbols (dimension_pattern ucd_symbols)
               valenova_chunk st
             /\ matches_in ucd_symbols (dimension_pattern ucd_symbols)
                  valenova_chunk st
             /\ d = group 1 st ++ u "×" ++ group 2 st)
      /\ (forall d,
            designer (test_extract_product_metadata ucd_symbols valenova_chunk)
            = Some d ->
            2 < length d
            /\ exists r st, In r (designer_patterns ucd_symbols)
                            /\ first_match ucd_symbols r valenova_chunk st
                            /\ matches_in ucd_symbols r valenova_chunk st
                            /\ d = strip ucd_symbols (group 1 st))
      /\ (forall cs,
            colors (test_extract_product_metadata ucd_symbols valenova_chunk)
            = Some cs ->
            cs <> [] /\ NoDup cs
            /\ forall c, In c cs ->
                 In c color_names /\ whole_word ucd_symbols c valenova_chunk)).
Proof.
  split; [vm_compute; reflexivity|].
  split; [vm_compute; reflexivity|].
  split; [vm_compute; intros H; discriminate H|].
  exact (@metadata_fields_not_trivial ucd_symbols valenova_chunk).
Defined.

(** ** More on the validator *)

Section ValidatorMore.

Variable U : ucd.

(** [str.lower] on a run of tabulated code points, wherever it stands. *)
Lemma lower_from_tabulated (w b pre : str) :
  forallb tabulated w = true ->
  lower_from U pre (w ++ b) = map tab_lower w ++ lower_from U (rev w ++ pre) b.
Proof.
  revert pre; induction w as [|x w IH]; intros pre H; simpl in *.
  - reflexivity.
  - apply andb_true_iff in H as [Hx Hw].
    unfold lower_at. rewrite Hx. simpl. f_equal.
    rewrite IH by assumption. now rewrite <- app_assoc.
Qed.

Lemma lower_maps_run (w s : str) :
  forallb tabulated w = true ->
  substring w s -> substring (map tab_lower w) (lower U s).
Proof.
  intros Hw [a [b ->]]. unfold lower.
  destruct (lower_from_split U a (w ++ b) []) as [x ->].
  rewrite lower_from_tabulated by assumption.
  exists x, (lower_from U (rev w ++ rev a ++ []) b). reflexivity.
Qed.

(** X1.  The validator accepts a chunk exactly when it has at least 100
    code points, triggers none of the three exclusion rules, and shows at
    least two of the three product indicators. *)
Theorem validator_characterisation (content : str) :
  test_is_valid_product_chunk U content = true
  <-> 100 <= length content
      /\ ~ index_rule U content
      /\ ~ sustainability_rule U content
      /\ ~ certification_rule U content
      /\ ((uppercase_token U content /\ dimension_like content)
          \/ (uppercase_token U content /\ product_context U content)
          \/ (dimension_like content /\ product_context U content)).
Proof.
  rewrite <- index_rule_iff, <- sustainability_rule_iff,
    <- certification_rule_iff.
  unfold test_is_valid_product_chunk.
  destruct (length content <? 100) eqn:L.
  - apply Nat.ltb_lt in L. split; [discriminate | intros [H _]; lia].
  - apply Nat.ltb_ge in L.
    destruct (any_in index_keywords (lower U content)).
    + split; [discriminate | intros [_ [H _]]; now destruct H].
    + destruct (any_in sustainability_keywords (lower U content)
                && negb (any_in product_keywords (lower U content))).
      * split; [discriminate | intros [_ [_ [H _]]]; now destruct H].
      * destruct (any_in certification_keywords (lower U content)
                  && negb (any_in product_keywords (lower U content))).
        -- split; [discriminate | intros [_ [_ [_ [H _]]]]; now destruct H].
        -- rewrite two_of_three, has_uppercase_name_iff.
           unfold has_dimensions, has_product_context, dimension_like,
             product_context.
           rewrite !any_in_iff.
           split; [intros H; repeat split; auto; discriminate | tauto].
Qed.

(** X2.  Boilerplate is rejected: a chunk that mentions a sustainability
    keyword, or a certification keyword, and none of the product-signal
    keywords ("dimensions", "designer", "collection", "×", "cm", "mm") in its
    lowercased text is never accepted, whatever uppercase names it holds. *)
Theorem boilerplate_rejected (content : str) :
  sustainability_rule U content \/ certification_rule U content ->
  test_is_valid_product_chunk U content = false.
Proof.
  rewrite <- sustainability_rule_iff, <- certification_rule_iff.
  intros H. unfold test_is_valid_product_chunk.
  destruct (length content <? 100); [reflexivity|].
  destruct (any_in index_keywords (lower U content)); [reflexivity|].
  destruct H as [-> | H]; [reflexivity|].
  destruct (any_in sustainability_keywords (lower U content)
            && negb (any_in product_keywords (lower U content)));
    [reflexivity|].
  now rewrite H.
Qed.

(** X3.  The index rule ignores letter case: a chunk that contains an index
    keyword in any mix of upper and lower case (such as "INDEX" or
    "Table of Contents") is rejected. *)
Theorem index_rule_ignores_case (content w : str) :
  forallb tabulated w = true ->
  In (map tab_lower w) index_keywords ->
  substring w content ->
  test_is_valid_product_chunk U content = false.
Proof.
  intros Hw Hk Hs.
  assert (H : any_in index_keywords (lower U content) = true).
  { apply any_in_iff. exists (map tab_lower w). split; [exact Hk|].
    now apply lower_maps_run. }
  unfold test_is_valid_product_chunk.
  destruct (length content <? 100); [reflexivity|]. now rewrite H.
Qed.

End ValidatorMore.

Lemma boilerplate_rejected_witness :
  (sustainability_rule ucd_symbols sostenibilidad_chunk
   \/ certification_rule ucd_symbols sostenibilidad_chunk)
  /\ 100 <= length sostenibilidad_chunk
  /\ uppercase_token ucd_symbols sostenibilidad_chunk
  /\ test_is_valid_product_chunk ucd_symbols sostenibilidad_chunk = false.
Proof.
  assert (H : sustainability_rule ucd_symbols sostenibilidad_chunk
              \/ certification_rule ucd_symbols sostenibilidad_chunk).
  { left. apply sustainability_rule_iff. vm_compute. reflexivity. }
  split; [exact H|].
  split; [vm_compute; lia|].
  split; [apply has_uppercase_name_iff; vm_compute; reflexivity|].
  exact (@boilerplate_rejected ucd_symbols sostenibilidad_chunk H).
Defined.

Lemma index_rule_ignores_case_witness :
  forallb tabulated (u "INDEX") = true
  /\ In (map tab_lower (u "INDEX")) index_keywords
  /\ substring (u "INDEX") index_page_chunk
  /\ 100 <= length index_page_chunk
  /\ test_is_valid_product_chunk ucd_symbols index_page_chunk = false.
Proof.
  assert (H1 : forallb tabulated (u "INDEX") = true) by (vm_compute; reflexivity).
  assert (H2 : In (map tab_lower (u "INDEX")) index_keywords)
    by (vm_compute; auto).
  assert (H3 : substring (u "INDEX") index_page_chunk)
    by (apply str_in_iff; vm_compute; reflexivity).
  repeat (split; [assumption|]).
  split; [vm_compute; lia|].
  exact (@index_rule_ignores_case ucd_symbols index_page_chunk (u "INDEX")
           H1 H2 H3).
Defined.

(** ** More on the name extractor *)

Section NameExtractorMore.

Variable U : ucd.

(** The text a match goes over lies within the classes of its pattern. *)
Lemma derives_within (P : codepoint -> Prop) (r : regex) (st st' : mstate) :
  derives U r st st' -> classes_within P r ->
  exists w, after st = w ++ after st' /\ before st' = rev w ++ before st
            /\ Forall P w.
Proof.
  induction 1 as [st|p st c s E Hp|r1 r2 st st1 st2 _ IH1 _ IH2
                 |r1 r2 st st' _ IH|r1 r2 st st' _ IH|r st
                 |r st st1 st2 _ IH1 _ _ IH2|n r st st' _ IH|st E|st E|st E];
    intros C; simpl in C.
  - exists []. auto.
  - exists [c]. simpl. auto.
  - destruct C as [C1 C2].
    destruct (IH1 C1) as [w1 [A1 [B1 F1]]]. destruct (IH2 C2) as [w2 [A2 [B2 F2]]].
    exists (w1 ++ w2). rewrite A1, A2, B2, B1, rev_app_distr, <- !app_assoc.
    split; [reflexivity|]. split; [reflexivity|]. now apply Forall_app.
  - apply IH. tauto.
  - apply IH. tauto.
  - exists []. auto.
  - destruct (IH1 C) as [w1 [A1 [B1 F1]]]. destruct (IH2 C) as [w2 [A2 [B2 F2]]].
    exists (w1 ++ w2). rewrite A1, A2, B2, B1, rev_app_distr, <- !app_assoc.
    split; [reflexivity|]. split; [reflexivity|]. now apply Forall_app.
  - exact (IH C).
  - exists []. auto.
  - exists []. auto.
  - exists []. auto.
Qed.

(** [re.search] returns a match of the pattern at some position. *)
Lemma search_sound (r : regex) (s : str) :
  forall pre st, search_from U r pre s = Some st ->
    exists a b, s = a ++ b /\ derives U r (at_pos (rev a ++ pre) b) st.
Proof.
  induction s as [|c s IH]; intros pre st H; simpl in H.
  - destruct (rmatch U r (@Some mstate) (at_pos pre [])) eqn:E; [|discriminate].
    injection H as ->. apply rmatch_sound in E as [st' [D E]]. injection E as ->.
    exists [], []. auto.
  - destruct (rmatch U r (@Some mstate) (at_pos pre (c :: s))) eqn:E.
    + injection H as ->. apply rmatch_sound in E as [st' [D E]].
      injection E as ->. exists [], (c :: s). auto.
    + apply IH in H as [a [b [-> D]]]. exists (c :: a), b.
      simpl. rewrite <- app_assoc. auto.
Qed.

Lemma Forall_lstrip (P : codepoint -> Prop) (s : str) :
  Forall P s -> Forall P (lstrip U s).
Proof.
  induction 1 as [|c s Hc Hs IH]; simpl; [constructor|].
  destruct (cp_isspace U c); [exact IH | now constructor].
Qed.

Lemma Forall_strip (P : codepoint -> Prop) (s : str) :
  Forall P s -> Forall P (strip U s).
Proof.
  intros H. unfold strip, rstrip.
  apply Forall_rev, Forall_lstrip, Forall_rev, Forall_lstrip. exact H.
Qed.

Lemma Forall_split_from (P : codepoint -> Prop) (sep : codepoint) (s : str) :
  forall cur, Forall P cur -> Forall P s ->
    Forall (Forall P) (split_from sep cur s).
Proof.
  induction s as [|c s IH]; intros cur Hcur Hs; simpl.
  - constructor; [now apply Forall_rev | constructor].
  - inversion Hs as [|c' s' Hc Hs']; subst.
    destruct (c =? sep)%N.
    + constructor; [now apply Forall_rev | apply IH; [constructor | assumption]].
    + apply IH; [now constructor | assumption].
Qed.

(** A match of either name pattern goes over a letter of [A-Z]. *)
Lemma at_least_has_letter (r : regex) (st st' : mstate) :
  derives U (Seq (Chr AZ) r) st st' ->
  exists c s, after st = c :: s /\ AZ c = true.
Proof.
  intros D. apply derives_seq_inv in D as [st1 [D1 _]].
  apply derives_chr_inv in D1 as [c [Hc [A _]]]. eauto.
Qed.

Lemma no_letter_no_standalone (line : str) :
  Forall (fun c => AZ c = false) line -> standalone U line = false.
Proof.
  intros H. unfold standalone, re_match.
  destruct (rmatch U (standalone_pattern U) (@Some mstate) (at_pos [] line))
    as [st|] eqn:E; [|reflexivity].
  apply rmatch_sound in E as [st' [D _]].
  unfold standalone_pattern in D.
  apply derives_seq_inv in D as [st1 [D1 D2]].
  inversion D1; subst.
  apply derives_seq_inv in D2 as [st2 [D2 _]].
  apply at_least_has_letter in D2 as [c [s [A Hc]]].
  simpl in A. subst line. inversion H; congruence.
Qed.

Lemma no_letter_no_run (line : str) :
  Forall (fun c => AZ c = false) line ->
  re_search U (uppercase_pattern U) line = None.
Proof.
  intros H. unfold re_search.
  destruct (search_from U (uppercase_pattern U) [] line) as [st|] eqn:E;
    [|reflexivity].
  apply search_sound in E as [a [b [-> D]]].
  unfold uppercase_pattern in D.
  apply derives_seq_inv in D as [st1 [D1 D2]].
  apply derives_wordb_inv in D1 as [-> _].
  apply derives_seq_inv in D2 as [st2 [D2 _]].
  apply derives_cap in D2 as [st3 [D2 _]].
  apply derives_seq_inv in D2 as [st4 [D2 _]].
  apply at_least_has_letter in D2 as [c [s [A Hc]]].
  simpl in A. subst b. apply Forall_app in H as [_ H].
  inversion H; congruence.
Qed.

Lemma name_loop_no_letter (lines todo : list str) :
  Forall (Forall (fun c => AZ c = false)) todo ->
  name_loop U lines todo = Return None.
Proof.
  induction 1 as [|raw todo Hraw _ IH]; simpl; [reflexivity|].
  assert (Hline : Forall (fun c => AZ c = false) (strip U raw))
    by now apply Forall_strip.
  rewrite (no_letter_no_standalone Hline).
  unfold embedded. rewrite (no_letter_no_run Hline). exact IH.
Qed.

Lemma Forall_firstn (A : Type) (P : A -> Prop) (n : nat) :
  forall l, Forall P l -> Forall P (firstn n l).
Proof.
  induction n as [|n IH]; intros l H; [constructor|].
  destruct H as [|x l Hx Hl]; [constructor|].
  simpl. constructor; [exact Hx | now apply IH].
Qed.

(** X5.  A chunk without any letter A-Z gets no name: the extractor returns
    [None] and does not raise.  This covers the empty chunk, lowercase text
    and text in other scripts. *)
Theorem no_capital_no_name (content : str) :
  Forall (fun c => AZ c = false) content ->
  test_extract_product_name U content = Return None.
Proof.
  intros H. unfold test_extract_product_name.
  apply name_loop_no_letter. apply Forall_firstn.
  unfold split. apply Forall_split_from; [constructor | exact H].
Qed.

Lemma index_none (x : str) (l : list str) : index x l = None -> ~ In x l.
Proof.
  induction l as [|y l IH]; simpl; [tauto|].
  unfold str_eqb. destruct (str_eq_dec y x) as [E | N]; [discriminate|].
  destruct (index x l); [discriminate|].
  intros _ [H | H]; [contradiction | now apply IH].
Qed.

Lemma name_loop_raises (lines todo : list str) (e : exn) :
  name_loop U lines todo = Raise e ->
  exists raw, In raw todo
              /\ re_search U (uppercase_pattern U) (strip U raw) <> None
              /\ ~ In (strip U raw) lines.
Proof.
  induction todo as [|raw todo IH]; simpl; [discriminate|].
  destruct (standalone U (strip U raw)); [discriminate|].
  unfold embedded.
  destruct (re_search U (uppercase_pattern U) (strip U raw)) as [m|] eqn:Hs.
  - destruct (index (strip U raw) lines) as [i|] eqn:Hi.
    + destruct (any_in _ _); [discriminate|].
      intros H. destruct (IH H) as [r [Hr H']]. exists r. auto.
    + intros _. exists raw.
      split; [now left|]. split; [rewrite Hs; discriminate|].
      now apply index_none.
  - intros H. destruct (IH H) as [r [Hr H']]. exists r. auto.
Qed.

(** X6.  The extractor raises only in one situation: one of the first 10
    lines holds a run of three or more letters A-Z, is changed by trimming,
    and its trimmed text is not itself a line of the chunk. *)
Theorem raises_only_on_untrimmed_line (content : str) (e : exn) :
  test_extract_product_name U content = Raise e ->
  exists raw, In raw (firstn 10 (split NL content))
              /\ re_search U (uppercase_pattern U) (strip U raw) <> None
              /\ strip U raw <> raw
              /\ ~ In (strip U raw) (split NL content).
Proof.
  unfold test_extract_product_name. intros H.
  apply name_loop_raises in H as [raw [Hraw [Hs Hn]]].
  exists raw. split; [exact Hraw|]. split; [exact Hs|]. split; [|exact Hn].
  intros E. apply Hn. rewrite E. eapply in_firstn. exact Hraw.
Qed.

End NameExtractorMore.

Lemma no_capital_no_name_witness :
  Forall (fun c => AZ c = false) (u "piqué fabric, 20x20 cm")
  /\ test_extract_product_name ucd_symbols (u "piqué fabric, 20x20 cm")
     = Return None.
Proof.
  assert (H : Forall (fun c => AZ c = false) (u "piqué fabric, 20x20 cm")).
  { apply Forall_forall. intros c Hc. vm_compute in Hc.
    repeat (destruct Hc as [<- | Hc]; [reflexivity|]). destruct Hc. }
  split; [exact H|].
  exact (@no_capital_no_name ucd_symbols (u "piqué fabric, 20x20 cm") H).
Defined.

Lemma raises_only_on_untrimmed_line_witness :
  test_extract_product_name ucd_symbols indented_line = Raise ValueError
  /\ exists raw, In raw (firstn 10 (split NL indented_line))
       /\ re_search ucd_symbols (uppercase_pattern ucd_symbols)
            (strip ucd_symbols raw) <> None
       /\ strip ucd_symbols raw <> raw
       /\ ~ In (strip ucd_symbols raw) (split NL indented_line).
Proof.
  assert (H : test_extract_product_name ucd_symbols indented_line
              = Raise ValueError) by (vm_compute; reflexivity).
  split; [exact H|].
  exact (@raises_only_on_untrimmed_line ucd_symbols indented_line ValueError H).
Defined.

(** ** The shape of a returned name *)

Section NameShape.

Variable U : ucd.

Lemma AZ_not_space (c : codepoint) : AZ c = true -> cp_isspace U c = false.
Proof.
  unfold AZ, cp_isspace, tabulated, tab_isspace, in_range.
  intros H. apply andb_true_iff in H as [H1 H2]. apply N.leb_le in H1, H2.
  assert (Ht : (c <? 0x100)%N = true) by (apply N.ltb_lt; lia).
  rewrite Ht. simpl.
  assert (E1 : (c <=? 0x0D)%N = false) by (apply N.leb_gt; lia).
  assert (E2 : (c <=? 0x20)%N = false) by (apply N.leb_gt; lia).
  assert (E3 : (c =? 0x85)%N = false) by (apply N.eqb_neq; lia).
  assert (E4 : (c =? 0xA0)%N = false) by (apply N.eqb_neq; lia).
  now rewrite E1, E2, E3, E4, !andb_false_r.
Qed.

(** Trimming leaves alone a text that starts and ends with a letter. *)
Lemma strip_between_letters (c c' : codepoint) (s w : str) :
  AZ c = true -> AZ c' = true -> c :: s = w ++ [c'] ->
  strip U (c :: s) = c :: s.
Proof.
  intros Hc Hc' E. apply AZ_not_space in Hc, Hc'.
  unfold strip. simpl. rewrite Hc. unfold rstrip.
  rewrite E, rev_app_distr. simpl. rewrite Hc'.
  change (c' :: rev w) with (rev [c'] ++ rev w).
  now rewrite <- rev_app_distr, rev_involutive.
Qed.

(** What [[A-Z]{n,}] goes over: at least [n] letters. *)
Lemma derives_letters (n : nat) :
  forall st st', derives U (AtLeast n (Chr AZ)) st st' ->
    exists w, after st = w ++ after st' /\ n <= length w
              /\ Forall (fun c => AZ c = true) w.
Proof.
  induction n as [|n IH]; intros st st' D.
  - simpl in D.
    destruct (@derives_within U (fun c => AZ c = true) _ _ _ D) as [w [A [_ F]]];
      [simpl; auto|].
    exists w. split; [exact A|]. split; [lia | exact F].
  - simpl in D. apply derives_seq_inv in D as [st1 [D1 D2]].
    apply derives_chr_inv in D1 as [c [Hc [A _]]].
    apply IH in D2 as [w [A2 [L F]]].
    exists (c :: w). rewrite A, A2. simpl.
    split; [reflexivity|]. split; [lia | now constructor].
Qed.

Lemma letters_end (n : nat) (w : str) :
  S n <= length w -> Forall (fun c => AZ c = true) w ->
  exists w' c, w = w' ++ [c] /\ AZ c = true.
Proof.
  intros L F. destruct (exists_last (l := w)) as [w' [c E]].
  { intros ->. simpl in L. lia. }
  exists w', c. split; [exact E|]. subst w.
  apply Forall_app in F as [_ F]. now inversion F.
Qed.

(** What [(?:X[A-Z]{n+1,})*] goes over: nothing, or a text that ends with a
    letter. *)
Lemma derives_tail_end (x : regex) (n : nat) (st st' : mstate) :
  derives U (Star (Seq x (AtLeast (S n) (Chr AZ)))) st st' ->
  exists w, after st = w ++ after st'
            /\ (w = [] \/ exists w' c, w = w' ++ [c] /\ AZ c = true).
Proof.
  intros D. remember (Star (Seq x (AtLeast (S n) (Chr AZ)))) as sr eqn:Hsr.
  induction D as [| | | | |r0 st|r0 st st1 st2 D1 _ L D2 IHD2| | | |];
    try discriminate.
  - exists []. auto.
  - injection Hsr as ->. destruct (IHD2 eq_refl) as [w2 [A2 H2]].
    apply derives_seq_inv in D1 as [st0 [Dx Dz]].
    destruct (derives_frame Dx) as [wx [Ax _]].
    apply (derives_letters (S n)) in Dz as [wz [Az [Lz Fz]]].
    destruct (letters_end Lz Fz) as [wz' [c [Ez Hc]]].
    exists (wx ++ wz ++ w2). rewrite Ax, Az, A2, <- !app_assoc.
    split; [reflexivity|]. right.
    destruct H2 as [-> | [w' [c' [-> Hc']]]].
    + exists (wx ++ wz'), c. rewrite app_nil_r, Ez, <- app_assoc. auto.
    + exists (wx ++ wz ++ w'), c'. rewrite <- !app_assoc. auto.
Qed.

(** A line that passes the standalone test. *)
Lemma standalone_line_shape (line : str) :
  standalone U line = true ->
  2 <= length line /\ Forall (name_char U) line
  /\ exists c s, line = c :: s /\ AZ c = true.
Proof.
  unfold standalone, re_match.
  destruct (rmatch U (standalone_pattern U) (@Some mstate) (at_pos [] line))
    as [st|] eqn:E; [|discriminate].
  intros _. apply rmatch_sound in E as [st' [D _]].
  assert (W : exists w, line = w ++ after st' /\ Forall (name_char U) w).
  { destruct (@derives_within U (name_char U) _ _ _ D) as [w [A [_ F]]].
    - unfold standalone_pattern, name_char. simpl.
      repeat split; intros c Hc; auto.
    - exists w. auto. }
  unfold standalone_pattern in D.
  apply derives_seq_inv in D as [st1 [D1 D2]].
  inversion D1; subst.
  apply derives_seq_inv in D2 as [st2 [D2 D3]].
  apply derives_seq_inv in D3 as [st3 [_ D4]].
  assert (Hend : after st' = [] \/ after st' = [NL])
    by (inversion D4; subst; assumption).
  apply (derives_letters 2) in D2 as [w2 [A2 [L2 F2]]]. simpl in A2.
  destruct W as [w [Ew Fw]].
  split; [rewrite A2, length_app; lia|]. split.
  - rewrite Ew. apply Forall_app. split; [exact Fw|].
    destruct Hend as [-> | ->]; [constructor|].
    constructor; [right; reflexivity | constructor].
  - destruct w2 as [|c w2]; [simpl in L2; lia|].
    exists c, (w2 ++ after st2). split; [exact A2 | now inversion F2].
Qed.

(** The run that the second rule takes from a line. *)
Lemma candidate_shape (line : str) (m : mstate) :
  re_search U (uppercase_pattern U) line = Some m ->
  strip U (group 1 m) = group 1 m
  /\ 3 <= length (group 1 m) /\ Forall (name_char U) (group 1 m)
  /\ exists c s, group 1 m = c :: s /\ AZ c = true.
Proof.
  intros H. apply search_sound in H as [a [b [_ D]]].
  unfold uppercase_pattern in D.
  apply derives_seq_inv in D as [st1 [D1 D]].
  apply derives_seq_inv in D as [st2 [D2 D3]].
  apply derives_wordb_inv in D1 as [-> _].
  apply derives_wordb_inv in D3 as [-> _].
  apply derives_cap in D2 as [st3 [D2 [-> G]]].
  change (after (capture 1 (at_pos (rev a ++ []) b) st3)) with (after st3) in G.
  set (g := group 1 (capture 1 (at_pos (rev a ++ []) b) st3)) in *.
  assert (F : Forall (name_char U) g).
  { destruct (@derives_within U (name_char U) _ _ _ D2) as [w [A [_ F]]].
    - unfold name_char. simpl. repeat split; intros c Hc; auto.
    - rewrite A in G. apply app_inv_tail in G. now rewrite <- G. }
  apply derives_seq_inv in D2 as [st4 [Dh Dt]].
  apply (derives_letters 3) in Dh as [wh [Ah [Lh Fh]]].
  apply (derives_tail_end (n := 2)) in Dt as [wt [At Ht]].
  assert (Eg : g = wh ++ wt).
  { rewrite Ah, At, app_assoc in G. now apply app_inv_tail in G. }
  destruct wh as [|c wh]; [simpl in Lh; lia|].
  assert (Hc : AZ c = true) by now inversion Fh.
  assert (Hlast : exists w' c', g = w' ++ [c'] /\ AZ c' = true).
  { destruct Ht as [-> | [w' [c' [-> Hc']]]].
    - rewrite app_nil_r in Eg. rewrite Eg. apply (letters_end (n := 2)); assumption.
    - exists ((c :: wh) ++ w'), c'. rewrite Eg, <- app_assoc. auto. }
  destruct Hlast as [w' [c' [El Hc']]].
  split; [|split; [|split]].
  - rewrite Eg in *. simpl in *. eapply strip_between_letters; eassumption.
  - rewrite Eg, length_app. lia.
  - exact F.
  - exists c, (wh ++ wt). auto.
Qed.

Lemma name_loop_name_shape (lines todo : list str) (name : str) :
  name_loop U lines todo = Return (Some name) ->
  2 <= length name /\ Forall (name_char U) name
  /\ exists c s, name = c :: s /\ AZ c = true.
Proof.
  induction todo as [|raw todo IH]; simpl; [discriminate|].
  destruct (standalone U (strip U raw)) eqn:Hst.
  - intros H. injection H as <-. rewrite strip_idempotent.
    now apply standalone_line_shape.
  - unfold embedded.
    destruct (re_search U (uppercase_pattern U) (strip U raw)) as [m|] eqn:Hs;
      [|exact IH].
    destruct (index (strip U raw) lines); [|discriminate].
    destruct (any_in _ _); [|exact IH].
    intros H. injection H as <-.
    destruct (candidate_shape _ Hs) as [E [L [F Hc]]].
    rewrite E. split; [lia|]. auto.
Qed.

(** X4.  A returned name has at least 2 characters, starts with a letter
    A-Z and holds nothing but letters A-Z and whitespace: a name with an
    accented letter, a digit or punctuation is never returned. *)
Theorem returned_name_is_uppercase_ascii (content name : str) :
  test_extract_product_name U content = Return (Some name) ->
  2 <= length name
  /\ Forall (name_char U) name
  /\ exists c s, name = c :: s /\ AZ c = true.
Proof.
  unfold test_extract_product_name. apply name_loop_name_shape.
Qed.

End NameShape.

Lemma returned_name_is_uppercase_ascii_witness :
  test_extract_product_name ucd_symbols pique_chunk = Return (Some (u "HARMONY"))
  /\ 2 <= length (u "HARMONY")
  /\ Forall (name_char ucd_symbols) (u "HARMONY")
  /\ exists c s, u "HARMONY" = c :: s /\ AZ c = true.
Proof.
  assert (H : test_extract_product_name ucd_symbols pique_chunk
              = Return (Some (u "HARMONY"))) by (vm_compute; reflexivity).
  split; [exact H|].
  exact (@returned_name_is_uppercase_ascii ucd_symbols pique_chunk
           (u "HARMONY") H).
Defined.

(** ** More on the metadata extractor *)

Section MetadataMore.

Variable U : ucd.

Lemma no_match_no_scan (r : regex) (content : str) :
  (forall st, ~ matches_in U r content st) -> scan U r 0 [] content = [].
Proof.
  intros H. destruct (scan U r 0 [] content) as [|st l] eqn:E; [reflexivity|].
  exfalso. apply (H st). apply scan_matches. rewrite E. now left.
Qed.

(** A match of the dimension pattern starts with a digit. *)
Lemma dimension_match_digit (content : str) (st : mstate) :
  matches_in U (dimension_pattern U) content st ->
  exists c, In c content /\ re_digit U c = true.
Proof.
  intros [a [b [-> D]]]. unfold dimension_pattern in D.
  apply derives_seq_inv in D as [st1 [D _]].
  apply derives_cap in D as [st2 [D _]].
  unfold number, Plus in D.
  apply derives_seq_inv in D as [st3 [D _]].
  apply derives_seq_inv in D as [st4 [D _]].
  apply derives_chr_inv in D as [c [Hc [A _]]]. simpl in A.
  exists c. split; [|exact Hc]. apply in_or_app. right. rewrite A. now left.
Qed.

(** A match of the "by" pattern goes over a letter A-Z. *)
Lemma by_match_letter (content : str) (st : mstate) :
  matches_in U (by_pattern U) content st ->
  exists c, In c content /\ AZ c = true.
Proof.
  intros [a [b [-> D]]]. unfold by_pattern in D.
  apply derives_seq_inv in D as [st1 [D1 D]].
  apply derives_seq_inv in D as [st2 [D2 D3]].
  destruct (derives_frame D1) as [w1 [A1 _]].
  destruct (derives_frame D2) as [w2 [A2 _]].
  apply derives_cap in D3 as [st3 [D3 _]].
  apply derives_seq_inv in D3 as [st4 [D3 _]].
  apply derives_chr_inv in D3 as [c [Hc [A3 _]]].
  simpl in A1. exists c. split; [|exact Hc].
  rewrite A1, A2, A3. apply in_or_app. right.
  apply in_or_app. right. apply in_or_app. right. now left.
Qed.

(** Every allowlisted designer name starts with a letter A-Z. *)
Lemma designer_names_head (name : str) :
  In name designer_names -> exists c t, name = c :: t /\ AZ c = true.
Proof.
  intros H. vm_compute in H.
  repeat (destruct H as [<- | H]; [do 2 eexists; split; reflexivity|]).
  destruct H.
Qed.

Lemma studio_match_name (st0 st : mstate) :
  derives U studio_pattern st0 st ->
  exists name, In name designer_names /\ group 1 st = name
               /\ after st0 = name ++ after st.
Proof.
  intros D. unfold studio_pattern in D.
  apply derives_cap in D as [st1 [D [-> G]]].
  apply (derives_one_of (names := designer_names)) in D as [name [Hn D]];
    [|discriminate].
  apply derives_lit in D as [A _].
  change (after (capture 1 st0 st1)) with (after st1) in *.
  rewrite A in G. apply app_inv_tail in G.
  exists name. rewrite <- G. auto.
Qed.

Lemma studio_match_letter (content : str) (st : mstate) :
  matches_in U studio_pattern content st ->
  exists c, In c content /\ AZ c = true.
Proof.
  intros [a [b [-> D]]].
  apply studio_match_name in D as [name [Hn [_ A]]].
  destruct (designer_names_head Hn) as [c [t [-> Hc]]].
  simpl in A. exists c. split; [|exact Hc].
  apply in_or_app. right. rewrite A. now left.
Qed.

Lemma color_match_letter (content : str) (st : mstate) :
  matches_in U color_pattern content st ->
  exists c, In c content /\ AZ c = true.
Proof.
  intros H. apply color_match in H as [Hn [a [b [-> _]]]].
  destruct (color_names_edges Hn) as [c [t [_ [_ [E [_ [Hc _]]]]]]].
  exists c. split; [|exact Hc].
  apply in_or_app. right. rewrite E. now left.
Qed.

(** X7.  Text without any letter A-Z and without any decimal digit yields
    the empty record: no dimensions, no designer, no colours.  This covers
    the empty chunk and lowercase prose. *)
Theorem plain_text_no_metadata (content : str) :
  Forall (fun c => AZ c = false /\ re_digit U c = false) content ->
  test_extract_product_metadata U content
  = {| dimensions := None; designer := None; colors := None |}.
Proof.
  intros H. rewrite Forall_forall in H.
  assert (Hd : scan U (dimension_pattern U) 0 [] content = []).
  { apply no_match_no_scan. intros st M.
    apply dimension_match_digit in M as [c [Hin Hq]].
    destruct (H c Hin) as [_ E]. congruence. }
  assert (Hb : scan U (by_pattern U) 0 [] content = []).
  { apply no_match_no_scan. intros st M.
    apply by_match_letter in M as [c [Hin Hq]].
    destruct (H c Hin) as [E _]. congruence. }
  assert (Hs : scan U studio_pattern 0 [] content = []).
  { apply no_match_no_scan. intros st M.
    apply studio_match_letter in M as [c [Hin Hq]].
    destruct (H c Hin) as [E _]. congruence. }
  assert (Hc : scan U color_pattern 0 [] content = []).
  { apply no_match_no_scan. intros st M.
    apply color_match_letter in M as [c [Hin Hq]].
    destruct (H c Hin) as [E _]. congruence. }
  unfold test_extract_product_metadata, dimension_patterns, designer_patterns,
    color_patterns, extract_dimensions, extract_designer, collect_colors,
    findall1, findall2.
  simpl. now rewrite Hd, Hb, Hs, Hc.
Qed.

End MetadataMore.

Lemma plain_text_no_metadata_witness :
  Forall (fun c => AZ c = false /\ re_digit ucd_symbols c = false)
    (u "piqué fabric, by the studio")
  /\ test_extract_product_metadata ucd_symbols (u "piqué fabric, by the studio")
     = {| dimensions := None; designer := None; colors := None |}.
Proof.
  assert (H : Forall (fun c => AZ c = false /\ re_digit ucd_symbols c = false)
                (u "piqué fabric, by the studio")).
  { apply Forall_forall. intros c Hc. vm_compute in Hc.
    repeat (destruct Hc as [<- | Hc]; [split; reflexivity|]). destruct Hc. }
  split; [exact H|].
  exact (@plain_text_no_metadata ucd_symbols (u "piqué fabric, by the studio") H).
Defined.

(** ** The colours found are all the colours there are *)

Section ColoursComplete.

Variable U : ucd.

Local Abbreviation mk := Build_mstate.

Lemma derives_lit_intro (s : str) :
  forall pre b g, derives U (Lit s) (mk pre (s ++ b) g) (mk (rev s ++ pre) b g).
Proof.
  induction s as [|c s IH]; intros pre b g.
  - apply d_empty.
  - destruct s as [|d s].
    + apply derives_chr_step. apply N.eqb_refl.
    + change (Lit (c :: d :: s)) with (Seq (Chr (ch c)) (Lit (d :: s))).
      apply d_seq with (st1 := mk (c :: pre) ((d :: s) ++ b) g).
      * apply derives_chr_step. apply N.eqb_refl.
      * change (rev (c :: d :: s)) with (rev (d :: s) ++ [c]).
        rewrite <- app_assoc. apply IH.
Qed.

Lemma derives_one_of_intro (names : list str) (name : str) (st st' : mstate) :
  In name names -> derives U (Lit name) st st' ->
  derives U (OneOf (map Lit names)) st st'.
Proof.
  induction names as [|n names IH]; intros H D; [destruct H|].
  destruct names as [|m names].
  - destruct H as [-> | []]. exact D.
  - change (OneOf (map Lit (n :: m :: names)))
      with (Alt (Lit n) (OneOf (map Lit (m :: names)))).
    destruct H as [-> | H]; [now apply d_alt_l | apply d_alt_r; now apply IH].
Qed.

Lemma color_names_letters (name : str) :
  In name color_names -> Forall (fun c => AZ c = true) name.
Proof.
  intros H. vm_compute in H.
  repeat (destruct H as [<- | H];
          [repeat constructor|]).
  destruct H.
Qed.

(** No colour name is the beginning of another one. *)
Lemma color_names_prefix_free (c c0 b b0 : str) :
  In c color_names -> In c0 color_names -> c ++ b = c0 ++ b0 -> c = c0.
Proof.
  intros H H0 E. vm_compute in H, H0.
  repeat (destruct H as [<- | H]);
    try (destruct H);
    repeat (destruct H0 as [<- | H0]);
    try (destruct H0);
    try reflexivity; simpl in E; discriminate E.
Qed.

(** A colour name standing as a whole word is matched where it stands. *)
Lemma color_here (c pre b : str) :
  In c color_names -> no_word_first U pre -> no_word_first U b ->
  exists st, derives U color_pattern (at_pos pre (c ++ b)) st.
Proof.
  intros Hc Hl Hr.
  destruct (color_names_edges Hc) as [x [t [x' [t' [E [E' [Hx Hx']]]]]]].
  exists (capture 1 (at_pos pre (c ++ b)) (mk (rev c ++ pre) b [])).
  unfold color_pattern.
  apply d_seq with (st1 := at_pos pre (c ++ b)).
  { apply d_wordb. unfold word_behind, word_ahead. simpl.
    rewrite E. simpl. rewrite (AZ_word U _ Hx).
    destruct pre as [|y pre]; [reflexivity|]. simpl in Hl. now rewrite Hl. }
  apply d_seq with (st1 := capture 1 (at_pos pre (c ++ b)) (mk (rev c ++ pre) b [])).
  { apply d_cap. apply derives_one_of_intro with (name := c); [exact Hc|].
    apply derives_lit_intro. }
  apply d_wordb. unfold word_behind, word_ahead, capture. simpl.
  rewrite E'. simpl. rewrite (AZ_word U _ Hx').
  destruct b as [|y b]; [reflexivity|]. simpl in Hr. now rewrite Hr.
Qed.

(** The shape of any match of the colour pattern. *)
Lemma color_derives_shape (st0 st : mstate) :
  derives U color_pattern st0 st ->
  exists name, In name color_names /\ group 1 st = name
               /\ after st0 = name ++ after st
               /\ before st = rev name ++ before st0.
Proof.
  intros D. unfold color_pattern in D.
  apply derives_seq_inv in D as [st1 [D1 D]].
  apply derives_seq_inv in D as [st2 [D2 D3]].
  apply derives_wordb_inv in D1 as [-> _].
  apply derives_wordb_inv in D3 as [-> _].
  apply derives_cap in D2 as [st3 [D2 [-> G]]].
  apply (derives_one_of (names := color_names)) in D2 as [name [Hn D2]];
    [|discriminate].
  apply derives_lit in D2 as [A B].
  change (after (capture 1 st0 st3)) with (after st3) in *.
  change (before (capture 1 st0 st3)) with (before st3).
  rewrite A in G. apply app_inv_tail in G.
  exists name. rewrite <- G. auto.
Qed.

Lemma covered_letters (w : str) :
  forall x pre rest,
    re_word U x = true -> Forall (fun c => AZ c = true) w ->
    covered U (length w) (x :: pre) (w ++ rest).
Proof.
  induction w as [|z w IH]; intros x pre rest Hx Hw; simpl; [exact I|].
  inversion Hw as [|z' w' Hz Hw']; subst.
  split; [exact Hx|]. apply IH; [now apply AZ_word | assumption].
Qed.

Lemma scan_here (r : regex) (pre : str) (x : codepoint) (s : str) :
  scan U r 0 pre (x :: s)
  = match rmatch U r (@Some mstate) (at_pos pre (x :: s)) with
    | Some st =>
        st :: scan U r (pred (consumed (at_pos pre (x :: s)) st)) (x :: pre) s
    | None => scan U r 0 (x :: pre) s
    end.
Proof. reflexivity. Qed.

Lemma scan_skip (r : regex) (k : nat) (pre : str) (x : codepoint) (s : str) :
  scan U r (S k) pre (x :: s) = scan U r k (x :: pre) s.
Proof. reflexivity. Qed.

Lemma scan_finds_color (c : str) :
  In c color_names ->
  forall s skip pre a b,
    covered U skip pre s -> s = a ++ c ++ b ->
    no_word_first U (rev a ++ pre) -> no_word_first U b ->
    In c (map (group 1) (scan U color_pattern skip pre s)).
Proof.
  intros Hc. induction s as [|x s IH]; intros skip pre a b Hcov Hs Hl Hr.
  - destruct (color_names_edges Hc) as [y [t [_ [_ [E _]]]]].
    rewrite E in Hs. destruct a; discriminate.
  - destruct a as [|y a].
    + simpl in Hs, Hl. destruct skip as [|k].
      * rewrite scan_here.
        destruct (@color_here c pre b Hc Hl Hr) as [st D]. rewrite <- Hs in D.
        destruct (rmatch_complete (@Some mstate) D eq_refl) as [st0 E].
        rewrite E. cbn [map]. left.
        apply rmatch_sound in E as [st1 [D1 E1]]. injection E1 as ->.
        apply color_derives_shape in D1 as [name [Hn [G [A _]]]].
        simpl in A. rewrite G. symmetry.
        eapply color_names_prefix_free; [exact Hc | exact Hn |].
        rewrite <- Hs. exact A.
      * exfalso. destruct Hcov as [Hw _].
        destruct pre as [|z pre]; simpl in *; [exact Hw | congruence].
    + simpl in Hs. injection Hs as -> Hs.
      assert (Hl' : no_word_first U (rev a ++ y :: pre)).
      { simpl in Hl. now rewrite <- app_assoc in Hl. }
      destruct skip as [|k].
      * rewrite scan_here.
        destruct (rmatch U color_pattern (@Some mstate) (at_pos pre (y :: s)))
          as [st0|] eqn:E.
        -- cbn [map]. right.
           apply (IH _ _ a b); [|exact Hs | exact Hl' | exact Hr].
           apply rmatch_sound in E as [st1 [D1 E1]]. injection E1 as ->.
           apply color_derives_shape in D1 as [name [Hn [_ [A B]]]].
           simpl in A, B.
           assert (Hletters := color_names_letters Hn).
           destruct name as [|z name]; [destruct (color_names_edges Hn) as
             [? [? [? [? [E0 _]]]]]; discriminate|].
           simpl in A. injection A as <- A.
           unfold consumed. rewrite B. simpl before.
           rewrite length_app, length_rev. simpl length.
           replace (S (length name) + length pre - length pre) with (S (length name))
             by lia.
           simpl pred. rewrite A.
           inversion Hletters as [|? ? Hy Hrest]; subst.
           apply covered_letters; [now apply AZ_word | exact Hrest].
        -- apply (IH _ _ a b); [exact I | exact Hs | exact Hl' | exact Hr].
      * rewrite scan_skip. destruct Hcov as [_ Hcov].
        apply (IH _ _ a b); [exact Hcov | exact Hs | exact Hl' | exact Hr].
Qed.

(** X8.  The [colors] field holds exactly the allowlisted colour names that
    stand in the text as whole words: none is missed, none is invented. *)
Theorem colors_are_the_whole_word_names (content c : str) :
  (exists cs, colors (test_extract_product_metadata U content) = Some cs
              /\ In c cs)
  <-> In c color_names /\ whole_word U c content.
Proof.
  unfold test_extract_product_metadata. cbn [colors]. split.
  - intros [cs [H Hin]].
    destruct (collect_colors U color_patterns content) as [|c0 rest] eqn:E;
      [discriminate|].
    assert (Hcs : cs = list_set (collect_colors U color_patterns content))
      by (rewrite E; congruence).
    subst cs. apply nodup_In in Hin. now apply collect_colors_in.
  - intros [Hc [a [b [-> [Hl Hr]]]]].
    assert (Hin : In c (collect_colors U color_patterns (a ++ c ++ b))).
    { unfold collect_colors, color_patterns, findall1. simpl. rewrite app_nil_r.
      apply (@scan_finds_color c Hc (a ++ c ++ b) 0 [] a b);
        [exact I | reflexivity | now rewrite app_nil_r | exact Hr]. }
    destruct (collect_colors U color_patterns (a ++ c ++ b)) as [|c0 rest] eqn:E;
      [destruct Hin|].
    eexists. split; [reflexivity|]. unfold list_set. apply nodup_In. exact Hin.
Qed.

End ColoursComplete.

(** ** The dimensions field *)

Section Dimensions.

Variable U : ucd.

Local Abbreviation mk := Build_mstate.

(** A pattern leaves alone the groups it does not set. *)
Lemma derives_group_other (n : nat) (r : regex) (st st' : mstate) :
  derives U r st st' -> ~ In n (captures r) -> group n st' = group n st.
Proof.
  induction 1 as [st|p st c s E Hp|r1 r2 st st1 st2 _ IH1 _ IH2
                 |r1 r2 st st' _ IH|r1 r2 st st' _ IH|r st
                 |r st st1 st2 _ IH1 _ _ IH2|m r st st' _ IH|st E|st E|st E];
    intros Hn; simpl in Hn; try reflexivity.
  - rewrite IH2, IH1; auto; intros H; apply Hn, in_or_app; auto.
  - apply IH. intros H; apply Hn, in_or_app; auto.
  - apply IH. intros H; apply Hn, in_or_app; auto.
  - rewrite IH2, IH1; auto.
  - unfold group, capture. simpl.
    destruct (Nat.eqb m n) eqn:E; [apply Nat.eqb_eq in E; tauto|].
    apply IH. tauto.
Qed.

Lemma plus_digits (st st' : mstate) :
  derives U (Plus (Chr (re_digit U))) st st' ->
  exists w, after st = w ++ after st' /\ digits U w.
Proof.
  intros D. unfold Plus in D.
  apply derives_seq_inv in D as [st1 [D1 D2]].
  apply derives_chr_inv in D1 as [c [Hc [A _]]].
  destruct (@derives_within U (fun c => re_digit U c = true) _ _ _ D2)
    as [w [A2 [_ F]]]; [simpl; auto|].
  exists (c :: w). rewrite A, A2. split; [reflexivity|].
  split; [discriminate | now constructor].
Qed.

Lemma number_shape (st st' : mstate) :
  derives U (number U) st st' ->
  exists n, after st = n ++ after st' /\ decimal_number U n.
Proof.
  intros D. unfold number in D.
  apply derives_seq_inv in D as [st1 [D1 D2]].
  apply plus_digits in D1 as [i [A1 Hi]].
  unfold Opt in D2.
  inversion D2 as [| | |r1 r2 s0 s0' Dl|r1 r2 s0 s0' Dr| | | | | |]; subst.
  - apply derives_seq_inv in Dl as [st2 [Dc Df]].
    apply (@derives_lit U (u ",")) in Dc as [Ac _].
    apply plus_digits in Df as [f [Af Hf]].
    exists (i ++ u "," ++ f). rewrite A1, Ac, Af, <- !app_assoc.
    split; [reflexivity|]. right. exists i, f. auto.
  - inversion Dr; subst. exists i. split; [exact A1 | now left].
Qed.

Lemma decimal_number_first (n : str) :
  decimal_number U n -> exists d n', n = d :: n' /\ re_digit U d = true.
Proof.
  assert (H : forall w, digits U w ->
                exists d w', w = d :: w' /\ re_digit U d = true).
  { intros w [Hne F]. destruct w as [|d w']; [congruence|].
    exists d, w'. split; [reflexivity | now inversion F]. }
  intros [Hd | [i [f [-> [Hi _]]]]].
  - now apply H.
  - destruct (H i Hi) as [d [i' [-> Hd]]]. exists d, (i' ++ u "," ++ f). auto.
Qed.

Lemma decimal_number_last (n : str) :
  decimal_number U n -> exists n' d, n = n' ++ [d] /\ re_digit U d = true.
Proof.
  assert (H : forall w, digits U w ->
                exists w' d, w = w' ++ [d] /\ re_digit U d = true).
  { intros w [Hne F]. destruct (exists_last Hne) as [w' [d ->]].
    exists w', d. split; [reflexivity|].
    apply Forall_app in F as [_ F]. now inversion F. }
  intros [Hd | [i [f [-> [_ Hf]]]]].
  - now apply H.
  - destruct (H f Hf) as [f' [d [-> Hd]]].
    exists (i ++ u "," ++ f'), d. rewrite <- !app_assoc. auto.
Qed.

(** The shape of any match of the dimension pattern. *)
Lemma dimension_match_shape (st0 st : mstate) :
  derives U (dimension_pattern U) st0 st ->
  exists w1 sep w2 rest,
    after st0 = group 1 st ++ w1 ++ sep :: w2 ++ group 2 st ++ rest
    /\ decimal_number U (group 1 st) /\ decimal_number U (group 2 st)
    /\ Forall (fun c => re_space U c = true) w1
    /\ Forall (fun c => re_space U c = true) w2
    /\ is_separator sep.
Proof.
  intros D. unfold dimension_pattern in D.
  apply derives_seq_inv in D as [s1 [D1 D]].
  assert (G1 : group 1 st = group 1 s1).
  { apply (derives_group_other 1 D). simpl. intros [H | H]; [discriminate | exact H]. }
  apply derives_seq_inv in D as [s2 [D2 D]].
  apply derives_seq_inv in D as [s3 [D3 D]].
  apply derives_seq_inv in D as [s4 [D4 D]].
  apply derives_seq_inv in D as [s5 [D5 D]].
  assert (G2 : group 2 st = group 2 s5).
  { apply (derives_group_other 2 D). simpl. tauto. }
  destruct (derives_frame D) as [rest [A6 _]].
  apply derives_cap in D1 as [s1' [N1 [E1 C1]]].
  apply number_shape in N1 as [n1 [A1 Hn1]].
  assert (F1 : group 1 s1 = n1).
  { rewrite E1 in C1 |- *. change (after (capture 1 st0 s1')) with (after s1') in C1.
    rewrite A1 in C1. apply app_inv_tail in C1. now rewrite <- C1. }
  destruct (@derives_within U (fun c => re_space U c = true) _ _ _ D2)
    as [w1 [A2 [_ Fw1]]]; [simpl; auto|].
  apply derives_chr_inv in D3 as [sep [Hsep [A3 _]]].
  destruct (@derives_within U (fun c => re_space U c = true) _ _ _ D4)
    as [w2 [A4 [_ Fw2]]]; [simpl; auto|].
  apply derives_cap in D5 as [s5' [N2 [E5 C5]]].
  apply number_shape in N2 as [n2 [A5 Hn2]].
  assert (F2 : group 2 s5 = n2).
  { rewrite E5 in C5 |- *. change (after (capture 2 s4 s5')) with (after s5') in C5.
    rewrite A5 in C5. apply app_inv_tail in C5. now rewrite <- C5. }
  exists w1, sep, w2, (rest ++ after st).
  rewrite G1, G2, F1, F2.
  split; [|split; [exact Hn1|split; [exact Hn2|split; [exact Fw1|split; [exact Fw2|]]]]].
  - assert (Es1 : after s1 = after s1') by (rewrite E1; reflexivity).
    assert (Es5 : after s5 = after s5') by (rewrite E5; reflexivity).
    rewrite A1, <- Es1, A2, A3, A4, A5, <- Es5, A6. reflexivity.
  - unfold is_separator, ch in *. apply orb_true_iff in Hsep.
    destruct Hsep as [H | H]; apply N.eqb_eq in H; auto.
Qed.

(** X9.  A present [dimensions] value has the form "A×B", where A and B are
    decimal numbers as the text has them: a run of digits, or two such runs
    around a comma.  The unit and the blanks of the text are not part of
    it, and the separator is always the multiplication sign. *)
Theorem dimensions_format (content d : str) :
  dimensions (test_extract_product_metadata U content) = Some d ->
  exists n1 n2, d = n1 ++ u "×" ++ n2
                /\ decimal_number U n1 /\ decimal_number U n2.
Proof.
  unfold test_extract_product_metadata. cbn [dimensions]. intros H.
  apply extract_dimensions_some in H as [st [M ->]].
  apply first_is_match in M as [a [b [_ D]]].
  apply dimension_match_shape in D as [w1 [sep [w2 [rest [_ [H1 [H2 _]]]]]]].
  exists (group 1 st), (group 2 st). auto.
Qed.

Lemma number_single (d : codepoint) (pre z : str) (g : list (nat * str)) :
  re_digit U d = true ->
  derives U (number U) (mk pre (d :: z) g) (mk (d :: pre) z g).
Proof.
  intros Hd. unfold number, Plus, Opt.
  apply d_seq with (st1 := mk (d :: pre) z g).
  - apply d_seq with (st1 := mk (d :: pre) z g).
    + now apply derives_chr_step.
    + apply d_star_stop.
  - apply d_alt_r, d_empty.
Qed.

Lemma cap_intro (n : nat) (r : regex) (pre s pre' s' : str)
    (g g' : list (nat * str)) :
  derives U r (mk pre s g) (mk pre' s' g') ->
  exists g'', derives U (Cap n r) (mk pre s g) (mk pre' s' g'').
Proof.
  intros D. eexists. exact (d_cap n D).
Qed.

Lemma spaces_run (w : str) :
  Forall (fun c => re_space U c = true) w ->
  forall pre z g,
    derives U (Star (Chr (re_space U))) (mk pre (w ++ z) g) (mk (rev w ++ pre) z g).
Proof.
  intros F. apply derives_star_run. apply forallb_forall.
  rewrite Forall_forall in F. exact F.
Qed.

(** A dimension text is matched where it stands. *)
Lemma dimension_here (pre : str) (d1 : codepoint) (w1 : str) (sep : codepoint)
    (w2 : str) (d2 : codepoint) (b : str) :
  re_digit U d1 = true -> re_digit U d2 = true ->
  Forall (fun c => re_space U c = true) w1 ->
  Forall (fun c => re_space U c = true) w2 ->
  is_separator sep ->
  exists st, derives U (dimension_pattern U)
               (at_pos pre (d1 :: w1 ++ sep :: w2 ++ d2 :: b)) st.
Proof.
  intros H1 H2 F1 F2 Hs. unfold dimension_pattern, at_pos.
  destruct (cap_intro 1
              (@number_single d1 pre (w1 ++ sep :: w2 ++ d2 :: b) [] H1))
    as [g1 C1].
  destruct (cap_intro 2
              (@number_single d2 (rev w2 ++ sep :: rev w1 ++ d1 :: pre) b g1 H2))
    as [g2 C2].
  eexists.
  eapply d_seq; [exact C1|].
  eapply d_seq; [apply spaces_run; exact F1|].
  eapply d_seq.
  { apply derives_chr_step. unfold is_separator in Hs. unfold ch.
    destruct Hs as [-> | ->]; reflexivity. }
  eapply d_seq; [apply spaces_run; exact F2|].
  eapply d_seq; [exact C2|].
  eapply d_seq; [apply d_star_stop|].
  apply d_alt_r, d_empty.
Qed.

(** [findall] reports a match as soon as the pattern matches somewhere. *)
Lemma scan_nonempty (r : regex) (a : str) :
  forall pre b st,
    rmatch U r (@Some mstate) (at_pos (rev a ++ pre) b) = Some st ->
    scan U r 0 pre (a ++ b) <> [].
Proof.
  induction a as [|x a IH]; intros pre b st H.
  - simpl in H. destruct b as [|y b].
    + simpl. rewrite H. discriminate.
    + simpl app. rewrite scan_here, H. discriminate.
  - simpl app. rewrite scan_here.
    destruct (rmatch U r (@Some mstate) (at_pos pre (x :: a ++ b)));
      [discriminate|].
    apply (IH (x :: pre) b st). simpl in H. now rewrite <- app_assoc in H.
Qed.

(** X10.  The [dimensions] field is present exactly when the text holds a
    digit, optional whitespace, a multiplication sign or a lowercase "x",
    optional whitespace and a digit.  A capital "X" between the numbers
    (as in the SKU lines of the catalogue) does not count. *)
Theorem dimensions_present_iff (content : str) :
  dimensions (test_extract_product_metadata U content) <> None
  <-> dimension_text U content.
Proof.
  unfold test_extract_product_metadata. cbn [dimensions]. split.
  - intros H.
    destruct (extract_dimensions U (dimension_patterns U) content) as [d|] eqn:E;
      [|congruence].
    apply extract_dimensions_some in E as [st [M _]].
    apply first_is_match in M as [a [b [-> D]]].
    apply dimension_match_shape in D
      as [w1 [sep [w2 [rest [A [H1 [H2 [F1 [F2 Hs]]]]]]]]].
    destruct (decimal_number_last H1) as [n1' [d1 [E1 Hd1]]].
    destruct (decimal_number_first H2) as [d2 [n2' [E2 Hd2]]].
    simpl in A. rewrite E1, E2 in A.
    exists (a ++ n1'), d1, w1, sep, w2, d2, (n2' ++ rest).
    split; [|auto 6]. rewrite A, <- !app_assoc. reflexivity.
  - intros [a [d1 [w1 [sep [w2 [d2 [b [-> [H1 [H2 [F1 [F2 Hs]]]]]]]]]]]].
    destruct (@dimension_here (rev a ++ []) d1 w1 sep w2 d2 b H1 H2 F1 F2 Hs)
      as [st D].
    destruct (rmatch_complete (@Some mstate) D eq_refl) as [st0 E].
    apply scan_nonempty in E.
    unfold dimension_patterns, extract_dimensions, findall2.
    destruct (scan U (dimension_pattern U) 0 []
                (a ++ d1 :: w1 ++ sep :: w2 ++ d2 :: b)) as [|m rest];
      [congruence|].
    simpl. discriminate.
Qed.

End Dimensions.

Lemma dimensions_format_witness :
  dimensions (test_extract_product_metadata ucd_symbols valenova_chunk)
  = Some (u "11,8×11,8")
  /\ exists n1 n2, u "11,8×11,8" = n1 ++ u "×" ++ n2
                   /\ decimal_number ucd_symbols n1
                   /\ decimal_number ucd_symbols n2.
Proof.
  assert (H : dimensions (test_extract_product_metadata ucd_symbols valenova_chunk)
              = Some (u "11,8×11,8")) by (vm_compute; reflexivity).
  split; [exact H|].
  exact (@dimensions_format ucd_symbols valenova_chunk (u "11,8×11,8") H).
Defined.

(** ** The designer field *)

Section Designer.

Variable U : ucd.

Lemma AZ_designer_char (c : codepoint) : AZ c = true -> designer_char U c.
Proof.
  intros H. unfold designer_char. now rewrite H.
Qed.

Lemma designer_names_chars (name : str) :
  In name designer_names -> Forall (designer_char U) name.
Proof.
  intros H. vm_compute in H.
  repeat (destruct H as [<- | H];
          [repeat (constructor; [vm_compute; reflexivity|]); constructor|]).
  destruct H.
Qed.

(** What the group of a designer pattern holds. *)
Lemma designer_group_shape (r : regex) (content : str) (st : mstate) :
  In r (designer_patterns U) -> matches_in U r content st ->
  Forall (designer_char U) (group 1 st)
  /\ exists c s, group 1 st = c :: s /\ AZ c = true.
Proof.
  intros Hr [a [b [_ D]]]. unfold designer_patterns in Hr.
  destruct Hr as [<- | [<- | []]].
  - unfold by_pattern in D.
    apply derives_seq_inv in D as [st1 [_ D]].
    apply derives_seq_inv in D as [st2 [_ D]].
    apply derives_cap in D as [st3 [D [-> G]]].
    change (after (capture 1 st2 st3)) with (after st3) in G.
    set (g := group 1 (capture 1 st2 st3)) in *.
    destruct (@derives_within U (designer_char U) _ _ _ D) as [w [A [_ F]]].
    { simpl. split; [intros c; apply AZ_designer_char|].
      split; intros c Hc; exact Hc. }
    assert (E : g = w) by (rewrite A in G; now apply app_inv_tail in G).
    apply derives_seq_inv in D as [st4 [D D']].
    apply derives_chr_inv in D as [c [Hc [A4 _]]].
    destruct (derives_frame D') as [w' [A' _]].
    rewrite E. split; [exact F|].
    rewrite A4, A' in A. change (c :: w' ++ after st3)
      with ((c :: w') ++ after st3) in A.
    apply app_inv_tail in A. rewrite <- A. eauto.
  - apply studio_match_name in D as [name [Hn [G _]]].
    rewrite G. split; [now apply designer_names_chars|].
    now apply designer_names_head.
Qed.

Lemma strip_head_letter (c : codepoint) (s : str) :
  AZ c = true -> strip U (c :: s) = c :: rstrip U s.
Proof.
  intros H. apply (AZ_not_space U) in H.
  unfold strip. simpl. rewrite H. now apply rstrip_cons.
Qed.

(** X11.  A present [designer] value is longer than 2, has no blank at
    either end, starts with a letter A-Z and holds nothing but letters
    A-Z and a-z, whitespace, braces and hyphens.  Whitespace includes line
    breaks, so the value may run over several lines of the text. *)
Theorem designer_shape (content d : str) :
  designer (test_extract_product_metadata U content) = Some d ->
  2 < length d
  /\ strip U d = d
  /\ Forall (designer_char U) d
  /\ exists c s, d = c :: s /\ AZ c = true.
Proof.
  unfold test_extract_product_metadata. cbn [designer]. intros H.
  apply extract_designer_some in H as [L [r [st [Hr [M ->]]]]].
  apply first_is_match in M.
  destruct (designer_group_shape Hr M) as [F [c [s [E Hc]]]].
  split; [exact L|]. split; [apply strip_idempotent|].
  split; [now apply Forall_strip|].
  rewrite E, strip_head_letter by exact Hc. eauto.
Qed.

End Designer.

Lemma designer_shape_witness :
  designer (test_extract_product_metadata ucd_symbols pique_chunk)
  = Some (u "Estudi{H}ac" ++ [NL; NL; NL] ++ u "PIQU")
  /\ 2 < length (u "Estudi{H}ac" ++ [NL; NL; NL] ++ u "PIQU")
  /\ strip ucd_symbols (u "Estudi{H}ac" ++ [NL; NL; NL] ++ u "PIQU")
     = u "Estudi{H}ac" ++ [NL; NL; NL] ++ u "PIQU"
  /\ Forall (designer_char ucd_symbols)
       (u "Estudi{H}ac" ++ [NL; NL; NL] ++ u "PIQU")
  /\ exists c s, u "Estudi{H}ac" ++ [NL; NL; NL] ++ u "PIQU" = c :: s
                 /\ AZ c = true.
Proof.
  assert (H : designer (test_extract_product_metadata ucd_symbols pique_chunk)
              = Some (u "Estudi{H}ac" ++ [NL; NL; NL] ++ u "PIQU"))
    by (vm_compute; reflexivity).
  split; [exact H|].
  exact (@designer_shape ucd_symbols pique_chunk
           (u "Estudi{H}ac" ++ [NL; NL; NL] ++ u "PIQU") H).
Defined.

(** ** The driver *)

Section DriverFacts.

Variable U : ucd.

Lemma index_page_rejected :
  test_is_valid_product_chunk U index_page_chunk = false.
Proof.
  assert (H : any_in index_keywords (lower U index_page_chunk) = true).
  { apply any_in_iff. exists (map tab_lower (u "INDEX")).
    split; [vm_compute; auto|].
    apply lower_maps_run; [vm_compute; reflexivity|].
    apply str_in_iff. vm_compute. reflexivity. }
  unfold test_is_valid_product_chunk.
  destruct (length index_page_chunk <? 100); [reflexivity|]. now rewrite H.
Qed.

Lemma check_index_page (c : chunk) :
  chunk_content c = index_page_chunk -> expected_valid c = false ->
  check_chunk U c = ([Validity (chunk_index c) false PASS], None).
Proof.
  intros Hc He. unfold check_chunk. rewrite Hc, He, index_page_rejected.
  reflexivity.
Qed.

(** X12.  The run of the driver on its six sample chunks ends without an
    exception.  All six validity checks pass; the name check fails for
    chunks 4, 5 and 50 and the designer check fails for chunk 5; the
    dimension and colour checks pass.  The three chunks expected to be
    rejected get no further check. *)
Theorem sample_run_report :
  map outline (fst (test_content_filtering U))
  = [ (ValidityOf 0, PASS); (ValidityOf 1, PASS); (ValidityOf 2, PASS);
      (ValidityOf 4, PASS); (NameCheck, FAIL); (DimensionsCheck, PASS);
      (DesignerCheck, PASS); (ColorsCheck, PASS);
      (ValidityOf 5, PASS); (NameCheck, FAIL); (DesignerCheck, FAIL);
      (ValidityOf 50, PASS); (NameCheck, FAIL); (DimensionsCheck, PASS);
      (DesignerCheck, PASS); (ColorsCheck, PASS) ]
  /\ snd (test_content_filtering U) = None.
Proof.
  unfold test_content_filtering, test_chunks. cbn [run].
  rewrite check_index_page by reflexivity.
  split; vm_compute; reflexivity.
Qed.

Lemma not_in_metadata_events (c : chunk) (m : metadata)
    (got : option str) (s : verdict) :
  ~ In (Name got s) (metadata_events c m).
Proof.
  unfold metadata_events. intros H.
  repeat (apply in_app_or in H; destruct H as [H | H]);
    [destruct (expected_dimensions c) as [[|? ?]|]
    |destruct (expected_designer c) as [[|? ?]|]
    |destruct (expected_colors c) as [[|? ?]|]];
    simpl in H; try (destruct H as [H | H]; [discriminate H | exact H]);
    exact H.
Qed.

(** X13.  The name check of a chunk can pass only for an expected name made
    of letters A-Z and whitespace: for an expected name with any other
    character, such as the accented "PIQUÉ" of chunk 5, the driver never
    reports PASS, whatever the chunk contains. *)
Theorem name_check_needs_plain_capitals (c : chunk) (n : str)
    (got : option str) :
  expected_name c = Some n ->
  ~ Forall (name_char U) n ->
  ~ In (Name got PASS) (fst (check_chunk U c)).
Proof.
  intros Hn Hbad. unfold check_chunk.
  destruct (test_is_valid_product_chunk U (chunk_content c)
            && expected_valid c).
  - destruct (test_extract_product_name U (chunk_content c))
      as [extracted|e] eqn:E.
    + cbn [fst app]. intros H. destruct H as [H | H]; [discriminate H|].
      apply in_app_or in H. destruct H as [H | H];
        [|now apply not_in_metadata_events in H].
      rewrite Hn in H. destruct n as [|x n]; [exact H|].
      destruct H as [H | []]. injection H as _ H.
      destruct extracted as [name|]; [|discriminate H].
      unfold status_of, str_eqb in H.
      destruct (str_eq_dec name (x :: n)) as [-> | _]; [|discriminate H].
      apply Hbad. unfold test_extract_product_name in E.
      now apply (name_loop_name_shape U _ _ E).
    + cbn [fst]. intros [H | []]. discriminate H.
  - cbn [fst]. intros [H | []]. discriminate H.
Qed.

End DriverFacts.

Lemma name_check_needs_plain_capitals_witness :
  expected_name sample_5 = Some (u "PIQUÉ")
  /\ ~ Forall (name_char ucd_symbols) (u "PIQUÉ")
  /\ ~ In (Name (Some (u "HARMONY")) PASS)
         (fst (check_chunk ucd_symbols sample_5)).
Proof.
  assert (H1 : expected_name sample_5 = Some (u "PIQUÉ")) by reflexivity.
  assert (H2 : ~ Forall (name_char ucd_symbols) (u "PIQUÉ")).
  { intros F. rewrite Forall_forall in F.
    destruct (F 201%N) as [H | H]; [vm_compute; auto 6 | |];
      vm_compute in H; discriminate H. }
  split; [exact H1|]. split; [exact H2|].
  exact (@name_check_needs_plain_capitals ucd_symbols sample_5 (u "PIQUÉ")
           (Some (u "HARMONY")) H1 H2).
Defined.

(** ** The chunk statistics of [test_two_stage_classification.py] *)

Section TwoStageFacts.

Variable U : ucd.

Lemma count_chunk_total (a : analysis) (c : str) :
  total (count_chunk U a c) = S (total a).
Proof.
  unfold count_chunk, total.
  destruct (any_in _ (lower U c)); [simpl; lia|].
  destruct (any_in _ (lower U c)); [simpl; lia|].
  destruct (has_product_indicators U (lower U c)); simpl; lia.
Qed.

(** X14.  [analyze_chunk_types] counts every chunk exactly once: the four
    counters add up to the number of chunks. *)
Theorem analysis_counts_every_chunk (chunks : list str) :
  index_count (analyze_chunk_types U chunks)
  + sustainability_count (analyze_chunk_types U chunks)
  + product_like_count (analyze_chunk_types U chunks)
  + other_count (analyze_chunk_types U chunks)
  = length chunks.
Proof.
  unfold analyze_chunk_types.
  assert (H : forall l a, total (fold_left (count_chunk U) l a)
                          = total a + length l).
  { induction l as [|c l IH]; intros a; simpl; [lia|].
    rewrite IH, count_chunk_total. lia. }
  apply (H chunks).
Qed.

Lemma tab_lower_not_capital (c : codepoint) : AZ (tab_lower c) = false.
Proof.
  unfold tab_lower. destruct (tab_isupper c) eqn:E.
  - assert (H : (0x41 <= c)%N).
    { unfold tab_isupper, in_range in E.
      repeat (apply orb_true_iff in E; destruct E as [E | E]);
        apply andb_true_iff in E as [E _]; apply N.leb_le in E; lia. }
    unfold AZ, in_range. apply andb_false_iff. right. apply N.leb_gt. lia.
  - unfold tab_isupper in E. apply orb_false_iff in E as [E _].
    apply orb_false_iff in E as [E _]. exact E.
Qed.

Lemma lower_no_capitals (s : str) :
  lowercase_has_no_capitals U ->
  forall pre, Forall (fun c => AZ c = false) (lower_from U pre s).
Proof.
  intros HU. induction s as [|c s IH]; intros pre; simpl; [constructor|].
  apply Forall_app. split; [|apply IH].
  unfold lower_at. destruct (tabulated c) eqn:T.
  - constructor; [apply tab_lower_not_capital | constructor].
  - apply Forall_forall. intros x Hx. exact (HU pre c s x T Hx).
Qed.

Lemma no_capital_run (content : str) :
  Forall (fun c => AZ c = false) content ->
  found U capitals_pattern content = false.
Proof.
  intros H. unfold found, re_search.
  destruct (search_from U capitals_pattern [] content) as [st|] eqn:E;
    [|reflexivity].
  apply search_sound in E as [a [b [-> D]]].
  unfold capitals_pattern in D.
  apply derives_seq_inv in D as [st1 [D1 D2]].
  apply derives_wordb_inv in D1 as [-> _].
  apply derives_seq_inv in D2 as [st2 [D2 _]].
  apply at_least_has_letter in D2 as [c [s [A Hc]]].
  simpl in A. subst b. apply Forall_app in H as [_ H].
  inversion H; congruence.
Qed.

Lemma count_chunk_product_like (a : analysis) (c : str) :
  lowercase_has_no_capitals U ->
  product_like_count (count_chunk U a c) = product_like_count a.
Proof.
  intros HU. unfold count_chunk.
  destruct (any_in _ (lower U c)); [reflexivity|].
  destruct (any_in _ (lower U c)); [reflexivity|].
  unfold has_product_indicators.
  rewrite no_capital_run by (apply lower_no_capitals; exact HU).
  reflexivity.
Qed.

(** X15.  The product-like counter of [analyze_chunk_types] stays at 0
    for every list of chunks: the text is lowercased before
    [has_product_indicators] looks for a run of capitals in it, so that
    test never succeeds. *)
Theorem product_like_never_counted (chunks : list str) :
  lowercase_has_no_capitals U ->
  product_like_count (analyze_chunk_types U chunks) = 0.
Proof.
  intros HU. unfold analyze_chunk_types.
  assert (H : forall l a, product_like_count (fold_left (count_chunk U) l a)
                          = product_like_count a).
  { induction l as [|c l IH]; intros a; simpl; [reflexivity|].
    rewrite IH. now apply count_chunk_product_like. }
  apply (H chunks).
Qed.

(** X16.  [has_product_indicators] is true only for text with a run of at
    least three letters A-Z: without any letter A-Z it is false, whatever
    dimensions and designer words the text has. *)
Theorem indicators_need_capitals (content : str) :
  Forall (fun c => AZ c = false) content ->
  has_product_indicators U content = false.
Proof.
  intros H. unfold has_product_indicators. now rewrite no_capital_run.
Qed.

End TwoStageFacts.

Lemma symbols_lowercase_has_no_capitals : lowercase_has_no_capitals ucd_symbols.
Proof.
  intros pre c suf x T [<- | []]. unfold tabulated in T.
  apply orb_false_iff in T as [T _]. apply N.ltb_ge in T.
  unfold AZ, in_range. apply andb_false_iff. right. apply N.leb_gt. lia.
Defined.

Lemma product_like_never_counted_witness :
  lowercase_has_no_capitals ucd_symbols
  /\ has_product_indicators ucd_symbols valenova_chunk = true
  /\ product_like_count
       (analyze_chunk_types ucd_symbols (map chunk_content test_chunks)) = 0.
Proof.
  split; [exact symbols_lowercase_has_no_capitals|].
  split; [vm_compute; reflexivity|].
  exact (@product_like_never_counted ucd_symbols (map chunk_content test_chunks)
           symbols_lowercase_has_no_capitals).
Defined.

Lemma indicators_need_capitals_witness :
  Forall (fun c => AZ c = false) (u "20x20 cm, by the designer")
  /\ has_product_indicators ucd_symbols (u "20x20 cm, by the designer") = false.
Proof.
  assert (H : Forall (fun c => AZ c = false) (u "20x20 cm, by the designer")).
  { apply Forall_forall. intros c Hc. vm_compute in Hc.
    repeat (destruct Hc as [<- | Hc]; [reflexivity|]). destruct Hc. }
  split; [exact H|].
  exact (@indicators_need_capitals ucd_symbols (u "20x20 cm, by the designer") H).
Defined.
